(** * near-api-js: key pairs ([src/utils/key_pair.ts])

    A shallow embedding of [key_pair.ts] and the properties of its
    public keys, key pairs, string forms and encrypted envelopes.

    The module calls three collaborators that are not part of it: the
    byte codec of [./serialize] ([base_encode], [base_decode]), the
    [tweetnacl] primitives ([nacl.sign], [nacl.box], [nacl.randomBytes])
    and the [ed2curve] conversions.  They are the fields of the class
    [Externals]; every function of [key_pair.ts] is written once, over
    an arbitrary instance of that class. *)

From Stdlib Require Import ZArith NArith Ascii String DecimalString Lia.
From Stdlib.Strings Require Import Byte.
From Bignums Require Import BigZ.BigZ.
From stdpp Require Import base option list strings gmap.

Open Scope string_scope.
Open Scope list_scope.
Open Scope nat_scope.

(** ** Values of the host language *)

(** A [Uint8Array] is the list of its bytes. *)
Abbreviation bytes := (list byte).

#[global] Instance byte_eq_decision : EqDecision byte := Byte.byte_eq_dec.

(** A call either returns a value or throws; an [Error] is kept as its
    message. *)
Inductive result (A : Type) : Type :=
  | Ok (a : A)
  | Throw (message : string).
Arguments Ok {A} a.
Arguments Throw {A} message.

#[global] Instance result_ret : MRet result := fun _ a => Ok a.
#[global] Instance result_bind : MBind result := fun _ _ f r =>
  match r with
  | Ok a => f a
  | Throw e => Throw e
  end.

Definition returns {A} (r : result A) : Prop := ∃ a, r = Ok a.
Definition throws {A} (r : result A) : Prop := ∃ e, r = Throw e.

(** *** Strings *)

(** [s.split(sep)] for a separator of one character: the pieces between
    the occurrences of [sep], always at least one piece. *)
Fixpoint split (sep : ascii) (s : string) : list string :=
  match s with
  | EmptyString => [EmptyString]
  | String c rest =>
      if Ascii.eqb c sep then EmptyString :: split sep rest
      else match split sep rest with
           | piece :: pieces => String c piece :: pieces
           | [] => [String c EmptyString]
           end
  end.

(** Number of occurrences of a character. *)
Fixpoint occurrences (c : ascii) (s : string) : nat :=
  match s with
  | EmptyString => 0
  | String d rest => (if Ascii.eqb d c then 1 else 0) + occurrences c rest
  end.

(** [toLowerCase] and [toUpperCase].  A string is the sequence of its
    code units, here below 256; only the letters A-Z and a-z are mapped.
    No other code unit has a case mapping that yields a character of
    ["ed25519"] or ["ED25519"], the only strings the results are compared
    with. *)
Definition lower_char (c : ascii) : ascii :=
  let n := N_of_ascii c in
  if ((65 <=? n) && (n <=? 90))%N then ascii_of_N (n + 32) else c.

Definition upper_char (c : ascii) : ascii :=
  let n := N_of_ascii c in
  if ((97 <=? n) && (n <=? 122))%N then ascii_of_N (n - 32) else c.

Fixpoint map_chars (f : ascii → ascii) (s : string) : string :=
  match s with
  | EmptyString => EmptyString
  | String c rest => String (f c) (map_chars f rest)
  end.

Definition toLowerCase : string → string := map_chars lower_char.
Definition toUpperCase : string → string := map_chars upper_char.

(** The part of an encoded key that goes through the byte codec: the
    piece after the last colon. *)
Definition encoded_part (s : string) : string := List.last (split ":" s) "".

(** The spellings of the curve tag that differ from ["ed25519"] by the
    case of their letters only. *)
Definition ed25519_spellings : list string :=
  ["ed25519"; "Ed25519"; "eD25519"; "ED25519"].

(** *** Typed arrays *)

(** [new Uint8Array(n)]: [n] zero bytes. *)
Definition Uint8Array_new (n : nat) : bytes := replicate n "000"%byte.

(** [dst.set(src, offset)]: overwrite [dst] from [offset] on with [src];
    a [RangeError] when [src] does not fit. *)
Definition Uint8Array_set (dst src : bytes) (offset : nat) : result bytes :=
  if decide (offset + length src ≤ length dst)
  then Ok (take offset dst ++ src ++ drop (offset + length src) dst)
  else Throw "offset is out of bounds".

(** [a.slice(begin, end)] and [a.slice(begin)], for indices that are not
    negative; both clamp at the end of the array. *)
Definition slice (begin end_ : nat) (a : bytes) : bytes :=
  take (end_ - begin) (drop begin a).
Definition slice_from (begin : nat) (a : bytes) : bytes := drop begin a.

(** ** The collaborators *)

Module nacl.
(** The object [{publicKey, secretKey}] that tweetnacl's key
    generators return. *)
Record keyPair : Type := KeyPair { publicKey : bytes; secretKey : bytes }.
End nacl.

(** What [key_pair.ts] imports.  [rng] is the state of the secure random
    source that [nacl.sign.keyPair()], [nacl.box.keyPair()] and
    [nacl.randomBytes] draw from.  [convertPublicKey] returns [null] for
    bytes that are not a point of the curve, and [nacl.box] is handed
    that value as it is.  [nacl_box_keyPair_fromSecretKey] is not called
    by [key_pair.ts]; it names the public key that belongs to a box
    secret key, which the contract of [nacl.box] is stated with. *)
Class Externals : Type := {
  rng : Type;
  (* ./serialize *)
  base_encode : bytes → string;
  base_decode : string → result bytes;
  (* tweetnacl *)
  nacl_sign_keyPair : rng → nacl.keyPair * rng;
  nacl_sign_keyPair_fromSecretKey : bytes → result nacl.keyPair;
  nacl_sign_detached : bytes → bytes → result bytes;
  nacl_sign_detached_verify : bytes → bytes → bytes → result bool;
  nacl_box_keyPair : rng → nacl.keyPair * rng;
  nacl_box_keyPair_fromSecretKey : bytes → result nacl.keyPair;
  nacl_randomBytes : nat → rng → bytes * rng;
  nacl_box : bytes → bytes → option bytes → bytes → result bytes;
  nacl_box_open : bytes → bytes → bytes → bytes → result (option bytes);
  (* ed2curve *)
  convertPublicKey : bytes → option bytes;
  convertSecretKey : bytes → bytes
}.

(** ** [key_pair.ts] *)

Section KeyPair.
Context `{Externals}.

(** All supported key types. The enum is numeric: a [KeyType] is a
    number at run time, [ED25519] is 0, and a [PublicKey] holds whatever
    number it was given. The numbers are the integers here. *)
Definition KeyType : Type := Z.
Definition ED25519 : KeyType := 0%Z.

(** A number inside a template literal: an integer that JavaScript
    holds exactly is written in decimal. *)
Definition number_to_string (n : Z) : string :=
  NilZero.string_of_int (Z.to_int n).

Definition key_type_to_str (keyType : KeyType) : result string :=
  if decide (keyType = ED25519) then Ok "ed25519"
  else Throw ("Unknown key type " +:+ number_to_string keyType).

Definition str_to_key_type (keyType : string) : result KeyType :=
  if String.eqb (toLowerCase keyType) "ed25519" then Ok ED25519
  else Throw ("Unknown key type " +:+ keyType).

(** PublicKey representation that has type and bytes of the key. *)
Record PublicKey : Type := mkPublicKey { keyType : KeyType; data : bytes }.

Definition invalid_format : string :=
  "Invalid encoded key format, must be <curve>:<encoded key>".

Definition PublicKey_fromString (encodedKey : string) : result PublicKey :=
  let parts := split ":" encodedKey in
  if decide (length parts = 1) then
    d ← base_decode (nth 0 parts "");
    Ok {| keyType := ED25519; data := d |}
  else if decide (length parts = 2) then
    t ← str_to_key_type (nth 0 parts "");
    d ← base_decode (nth 1 parts "");
    Ok {| keyType := t; data := d |}
  else Throw invalid_format.

Definition PublicKey_from (value : string + PublicKey) : result PublicKey :=
  match value with
  | inl s => PublicKey_fromString s
  | inr k => Ok k
  end.

Definition PublicKey_toString (this : PublicKey) : result string :=
  tag ← key_type_to_str (keyType this);
  Ok (tag +:+ ":" +:+ base_encode (data this)).

Definition PublicKey_verify (this : PublicKey) (message signature : bytes)
  : result bool :=
  if decide (keyType this = ED25519)
  then nacl_sign_detached_verify message signature (data this)
  else Throw ("Unknown key type " +:+ number_to_string (keyType this)).

(** The field [publicKey] of a [Signature] is [signer] here: a key pair
    has a field of that name too. *)
Record Signature : Type :=
  mkSignature { signature : bytes; signer : PublicKey }.

(** This class provides key pair functionality for Ed25519 curve:
    generating key pairs, encoding key pairs, signing and verifying. *)
Record KeyPairEd25519 : Type :=
  mkKeyPairEd25519 { publicKey : PublicKey; secretKey : string }.

(** [new KeyPairEd25519(secretKey)] *)
Definition KeyPairEd25519_new (secretKey : string) : result KeyPairEd25519 :=
  sk ← base_decode secretKey;
  keyPair ← nacl_sign_keyPair_fromSecretKey sk;
  Ok {| publicKey := {| keyType := ED25519; data := nacl.publicKey keyPair |};
        secretKey := secretKey |}.

Definition KeyPairEd25519_fromRandom (g : rng) : result KeyPairEd25519 * rng :=
  let '(newKeyPair, g) := nacl_sign_keyPair g in
  (KeyPairEd25519_new (base_encode (nacl.secretKey newKeyPair)), g).

Definition KeyPair_fromRandom (curve : string) (g : rng)
  : result KeyPairEd25519 * rng :=
  if String.eqb (toUpperCase curve) "ED25519" then KeyPairEd25519_fromRandom g
  else (Throw ("Unknown curve " +:+ curve), g).

Definition KeyPair_fromString (encodedKey : string) : result KeyPairEd25519 :=
  let parts := split ":" encodedKey in
  if decide (length parts = 1) then KeyPairEd25519_new (nth 0 parts "")
  else if decide (length parts = 2) then
    if String.eqb (toUpperCase (nth 0 parts "")) "ED25519"
    then KeyPairEd25519_new (nth 1 parts "")
    else Throw ("Unknown curve: " +:+ nth 0 parts "")
  else Throw invalid_format.

Definition sign (this : KeyPairEd25519) (message : bytes) : result Signature :=
  sk ← base_decode (secretKey this);
  sig ← nacl_sign_detached message sk;
  Ok {| signature := sig; signer := publicKey this |}.

Definition verify (this : KeyPairEd25519) (message sig : bytes) : result bool :=
  PublicKey_verify (publicKey this) message sig.

Definition toString (this : KeyPairEd25519) : string :=
  "ed25519:" +:+ secretKey this.

Definition getPublicKey (this : KeyPairEd25519) : PublicKey := publicKey this.

Definition encryptMessage (this : KeyPairEd25519) (message : bytes)
    (receiverPublicKey : PublicKey) (g : rng) : result bytes * rng :=
  let '(ephemeralKeyPair, g) := nacl_box_keyPair g in
  let '(nonce, g) := nacl_randomBytes 24 g in
  let epk := nacl.publicKey ephemeralKeyPair in
  (cipher ← nacl_box message nonce
              (convertPublicKey (data receiverPublicKey))
              (nacl.secretKey ephemeralKeyPair);
   let result := Uint8Array_new (length nonce + length cipher + length epk) in
   result ← Uint8Array_set result epk 0;
   result ← Uint8Array_set result nonce (length epk);
   result ← Uint8Array_set result cipher (length epk + length nonce);
   Ok result,
   g).

Definition decryptMessage (this : KeyPairEd25519) (fullCipher : bytes)
  : result (option bytes) :=
  sk ← base_decode (secretKey this);
  let secretKey := convertSecretKey sk in
  let senderPublicKey := slice 0 32 fullCipher in
  let nonce := slice 32 56 fullCipher in
  let cipher := slice_from 56 fullCipher in
  nacl_box_open cipher nonce senderPublicKey secretKey.

End KeyPair.

(** ** What the collaborators promise

    The contracts of the imported functions that the properties below
    rely on, each stated on the interface. *)

Section Contracts.
Context `{Externals}.

(** *** [./serialize] *)

(** Decoding inverts encoding. *)
Definition codec_roundtrip : Prop :=
  ∀ b, base_decode (base_encode b) = Ok b.

(** The codec's alphabet has no colon: a string with one is refused. *)
Definition codec_alphabet : Prop :=
  ∀ s b, base_decode s = Ok b → occurrences ":" s = 0.

(** *** [tweetnacl]: sizes *)

(** [nacl.box.publicKeyLength] is 32 and [nacl.randomBytes(n)] has [n]
    bytes. *)
Record nacl_sizes : Prop := {
  box_keyPair_publicKey_length :
    ∀ g, length (nacl.publicKey (nacl_box_keyPair g).1) = 32;
  randomBytes_length :
    ∀ n g, length (nacl_randomBytes n g).1 = n
}.

(** [nacl.box.open] checks the sizes of the keys and of the nonce
    before anything else, throws when one is wrong, and otherwise returns
    the message or [null]; [convertSecretKey] returns 32 bytes. *)
Record box_open_sizes : Prop := {
  box_open_returns : ∀ c n pk sk,
    length pk = 32 → length sk = 32 → length n = 24 →
    returns (nacl_box_open c n pk sk);
  box_open_throws : ∀ c n pk sk,
    length pk ≠ 32 ∨ length n ≠ 24 → throws (nacl_box_open c n pk sk);
  convertSecretKey_length : ∀ sk, length (convertSecretKey sk) = 32
}.

(** *** [tweetnacl]: signatures *)

(** The secret keys that [nacl.sign.keyPair()] can generate: a seed
    followed by the public key derived from it. *)
Definition generated (sk : bytes) : Prop :=
  ∃ g, nacl.secretKey (nacl_sign_keyPair g).1 = sk.

(** A key pair is well formed when it was made from the encoding of a
    secret key that [nacl.sign.keyPair()] can generate. *)
Definition well_formed (kp : KeyPairEd25519) : Prop :=
  KeyPairEd25519_new (secretKey kp) = Ok kp
  ∧ ∃ sk, base_decode (secretKey kp) = Ok sk ∧ generated sk.

(** A generated pair is recovered from its secret key, and a signature
    made with a generated secret key verifies under its public key. *)
Record sign_contract : Prop := {
  fromSecretKey_generated : ∀ g,
    let kp := (nacl_sign_keyPair g).1 in
    nacl_sign_keyPair_fromSecretKey (nacl.secretKey kp) = Ok kp;
  verify_detached : ∀ g m,
    let kp := (nacl_sign_keyPair g).1 in
    ∃ sig, nacl_sign_detached m (nacl.secretKey kp) = Ok sig ∧
           nacl_sign_detached_verify m sig (nacl.publicKey kp) = Ok true
}.

(** *** [tweetnacl] and [ed2curve]: boxes *)

(** [a] is the box key pair of its secret key. *)
Definition box_pair (a : nacl.keyPair) : Prop :=
  nacl_box_keyPair_fromSecretKey (nacl.secretKey a) = Ok a.

(** [nacl.box.keyPair()] returns a box pair; a box made for [b] with the
    secret key of [a] is opened by the secret key of [b] and the public
    key of [a]; the conversion of a generated signing pair is a box
    pair. *)
Record box_contract : Prop := {
  box_keyPair_pair : ∀ g, box_pair (nacl_box_keyPair g).1;
  box_open_box : ∀ a b m n,
    box_pair a → box_pair b → length n = 24 →
    ∃ c, nacl_box m n (Some (nacl.publicKey b)) (nacl.secretKey a) = Ok c ∧
         nacl_box_open c n (nacl.publicKey a) (nacl.secretKey b) = Ok (Some m);
  convert_generated : ∀ g,
    let kp := (nacl_sign_keyPair g).1 in
    ∃ cpk, convertPublicKey (nacl.publicKey kp) = Some cpk ∧
           box_pair (nacl.KeyPair cpk (convertSecretKey (nacl.secretKey kp)))
}.

End Contracts.

(** ** Instances of the collaborators *)

(** *** Bytes as numbers *)

Definition byte_of_N (n : N) : byte :=
  default "000"%byte (Byte.of_N (n mod 256)).
Definition byte_of_Z (z : Z) : byte := byte_of_N (Z.to_N (z mod 256)).
Definition Z_of_byte (b : byte) : Z := Z.of_N (Byte.to_N b).

(** *** The random source

    The state of the source is the sequence of bytes it is going to
    deliver; a draw takes the first [n] of them. *)
Definition entropy : Type := nat → byte.

Definition draw (n : nat) (g : entropy) : bytes * entropy :=
  (map g (seq 0 n), λ i, g (n + i)).

(** *** The codec of [./serialize]: base 58 *)
Module bs58.

Definition ALPHABET : string :=
  "123456789ABCDEFGHJKLMNPQRSTUVWXYZabcdefghijkmnopqrstuvwxyz".

(** The value of a sequence of digits, most significant first. *)
Definition value (base : Z) (ds : list Z) : Z :=
  fold_left (λ a d, a * base + d)%Z ds 0%Z.

Definition value_from (base a : Z) (ds : list Z) : Z :=
  fold_left (λ a d, a * base + d)%Z ds a.

(** Digits in range, the first of them not zero. *)
Definition canonical (base : Z) (ds : list Z) : Prop :=
  Forall (λ d, 0 ≤ d < base)%Z ds ∧ head ds ≠ Some 0%Z.

(** The digits of [n], most significant first; none for zero. *)
Fixpoint digits_from (fuel : nat) (base n : Z) (acc : list Z) : list Z :=
  match fuel with
  | O => acc
  | S fuel =>
      if (n <=? 0)%Z then acc
      else digits_from fuel base (n / base)%Z ((n mod base)%Z :: acc)
  end.
Definition digits (base n : Z) : list Z :=
  digits_from (S (Z.to_nat (Z.log2 n))) base n [].

Fixpoint index_of (c : ascii) (s : string) : option nat :=
  match s with
  | EmptyString => None
  | String d rest =>
      if Ascii.eqb c d then Some 0 else S <$> index_of c rest
  end.

Definition char_of_digit (d : Z) : ascii :=
  nth (Z.to_nat d) (list_ascii_of_string ALPHABET) "1"%char.
Definition digit_of_char (c : ascii) : option Z :=
  Z.of_nat <$> index_of c ALPHABET.

Fixpoint leading {A} (is_leader : A → bool) (l : list A) : nat :=
  match l with
  | x :: rest => if is_leader x then S (leading is_leader rest) else 0
  | [] => 0
  end.

Definition is_zero (b : byte) : bool := (Z_of_byte b =? 0)%Z.
(** The leader ['1'] is the digit 0. *)
Definition is_one (d : Z) : bool := (d =? 0)%Z.

(** Modelled from the spec: [base_encode] of [./serialize], which is not
    in [src/]: the byte codec of the spec, over the base-58 alphabet of
    its examples, as [bs58] computes it.  The bytes are read as a
    big-endian number and written in base 58, every leading zero byte
    being written as the leader ['1']. *)
Definition encode (source : bytes) : string :=
  let zeroes := leading is_zero source in
  let n := value 256 (Z_of_byte <$> source) in
  string_of_list_ascii
    (char_of_digit <$> (replicate zeroes 0%Z ++ digits 58 n)).

(** Modelled from the spec: [base_decode] of [./serialize], which is not
    in [src/]: the inverse of [encode]; it fails on malformed input, a
    character outside the alphabet. *)
Definition decode (source : string) : result bytes :=
  match mapM digit_of_char (list_ascii_of_string source) with
  | None => Throw "Non-base58 character"
  | Some ds =>
      let zeroes := leading is_one ds in
      Ok (byte_of_Z <$> (replicate zeroes 0%Z ++ digits 256 (value 58 ds)))
  end.

End bs58.

(** *** A small model of the primitives

    An instance of the interface in which the contracts can be proved:
    the codec is base 58 and the sizes, the size checks and the shape of
    the keys are those of tweetnacl, while the group of the curve is
    replaced by the integers modulo 251 under addition, with generator
    1, the hash by a polynomial checksum and the cipher by a shift of the
    bytes.  A signature is the pair [(R, S)] with [S = r + h a], verified
    by [S G = R + h A]; a box key is shared by [a (b G) = b (a G)]. *)
Module toy.

Definition q : Z := 251.

(** A number below [q] as [n] bytes, little-endian, and back. *)
Definition encode_number (n : nat) (x : Z) : bytes :=
  take n (byte_of_Z (x mod q)%Z :: replicate (n - 1) "000"%byte).
Definition decode_number (b : bytes) : Z :=
  match b with
  | x :: _ => (Z_of_byte x mod q)%Z
  | [] => 0%Z
  end.

Definition checksum (b : bytes) : Z :=
  fold_left (λ a x, (a * 31 + Z_of_byte x + 1) mod q)%Z b 7%Z.

(** The scalar of a signing seed and the point of a scalar. *)
Definition scalar (seed : bytes) : Z := checksum seed.
Definition point (a : Z) : bytes := encode_number 32 a.

Definition sign_keyPair_fromSeed (seed : bytes) : nacl.keyPair :=
  let pk := point (scalar seed) in
  nacl.KeyPair pk (seed ++ pk).

Definition sign_keyPair (g : entropy) : nacl.keyPair * entropy :=
  let '(seed, g) := draw 32 g in (sign_keyPair_fromSeed seed, g).

Definition sign_keyPair_fromSecretKey (sk : bytes) : result nacl.keyPair :=
  if decide (length sk = 64) then Ok (nacl.KeyPair (drop 32 sk) sk)
  else Throw "bad secret key size".

Definition sign_detached (m sk : bytes) : result bytes :=
  if decide (length sk = 64) then
    let a := scalar (take 32 sk) in
    let r := checksum (take 32 sk ++ m) in
    let R := point r in
    let h := checksum (R ++ drop 32 sk ++ m) in
    Ok (R ++ encode_number 32 (r + h * a)%Z)
  else Throw "bad secret key size".

Definition sign_detached_verify (m sig pk : bytes) : result bool :=
  if decide (length sig = 64) then
    if decide (length pk = 32) then
      let R := take 32 sig in
      let S := decode_number (drop 32 sig) in
      let h := checksum (R ++ pk ++ m) in
      Ok (bool_decide (S = (decode_number R + h * decode_number pk) mod q)%Z)
    else Throw "bad public key size"
  else Throw "bad signature size".

Definition box_keyPair_fromSecretKey (sk : bytes) : result nacl.keyPair :=
  if decide (length sk = 32)
  then Ok (nacl.KeyPair (point (decode_number sk)) sk)
  else Throw "bad secret key size".

Definition box_keyPair (g : entropy) : nacl.keyPair * entropy :=
  let '(sk, g) := draw 32 g in
  (nacl.KeyPair (point (decode_number sk)) sk, g).

(** The key two parties share. *)
Definition shared (pk sk : bytes) : Z :=
  ((decode_number pk * decode_number sk) mod q)%Z.

Definition mask (k : Z) (b : byte) : byte := byte_of_Z (Z_of_byte b + k).
Definition unmask (k : Z) (b : byte) : byte := byte_of_Z (Z_of_byte b - k).

Definition tag (k : Z) (n m : bytes) : bytes :=
  replicate 16 (byte_of_Z (checksum (byte_of_Z k :: n ++ m))).

Definition check_box_sizes {A} (pk sk n : bytes) (body : result A)
  : result A :=
  if decide (length pk = 32) then
    if decide (length sk = 32) then
      if decide (length n = 24) then body
      else Throw "bad nonce size"
    else Throw "bad secret key size"
  else Throw "bad public key size".

Definition box (m n : bytes) (pk : option bytes) (sk : bytes)
  : result bytes :=
  match pk with
  | None => Throw "unexpected type, use Uint8Array"
  | Some pk =>
      check_box_sizes pk sk n
        (let k := shared pk sk in Ok (tag k n m ++ (mask k <$> m)))
  end.

Definition box_open (c n pk sk : bytes) : result (option bytes) :=
  check_box_sizes pk sk n
    (let k := shared pk sk in
     if decide (length c < 16) then Ok None
     else
       let m := unmask k <$> drop 16 c in
       if decide (take 16 c = tag k n m) then Ok (Some m) else Ok None).

Definition curve_publicKey (pk : bytes) : option bytes :=
  if decide (length pk = 32) then Some pk else None.

Definition curve_secretKey (sk : bytes) : bytes :=
  encode_number 32 (scalar (take 32 sk)).

#[export] Instance externals : Externals := {
  rng := entropy;
  base_encode := bs58.encode;
  base_decode := bs58.decode;
  nacl_sign_keyPair := sign_keyPair;
  nacl_sign_keyPair_fromSecretKey := sign_keyPair_fromSecretKey;
  nacl_sign_detached := sign_detached;
  nacl_sign_detached_verify := sign_detached_verify;
  nacl_box_keyPair := box_keyPair;
  nacl_box_keyPair_fromSecretKey := box_keyPair_fromSecretKey;
  nacl_randomBytes := draw;
  nacl_box := box;
  nacl_box_open := box_open;
  convertPublicKey := curve_publicKey;
  convertSecretKey := curve_secretKey
}.

End toy.

(** *** SHA-2

    The hash functions of FIPS 180-4 over words of [w] bits: SHA-512 is
    [crypto_hash] of tweetnacl, SHA-256 the digest the tests sign. *)
Module sha2.

Local Open Scope Z_scope.

Record parameters : Type := {
  w : Z;                      (* bits of a word *)
  K : list Z;                 (* round constants, one per round *)
  IV : list Z;                (* initial hash value *)
  Sigma0 : Z * Z * Z;         (* rotations of the two large sigmas *)
  Sigma1 : Z * Z * Z;
  sigma0 : Z * Z * Z;         (* two rotations and a shift *)
  sigma1 : Z * Z * Z
}.

(** The constants are the first [bits] bits of the fractional parts of
    the cube roots (round constants) and of the square roots (initial
    hash value) of the first primes. *)
Definition first_primes (n : nat) : list Z :=
  take n
    (fold_left
       (λ found k,
          if forallb (λ q, negb (k mod q =? 0)) found then found ++ [k]
          else found)
       (Z.of_nat <$> seq 2 500) []).

(** The integer part of the [k]-th root of [n], for [n] below [2^(200 k)]. *)
Definition root (k n : Z) : Z :=
  fold_left
    (λ x i, let y := x + 2 ^ Z.of_nat i in if y ^ k <=? n then y else x)
    (rev (seq 0 200)) 0.

Definition fractional (k bits prime : Z) : Z :=
  Z.land (root k (prime * 2 ^ (k * bits))) (Z.ones bits).

Definition K512 : list Z :=
  Eval vm_compute in fractional 3 64 <$> first_primes 80.
Definition IV512 : list Z :=
  Eval vm_compute in fractional 2 64 <$> first_primes 8.
Definition K256 : list Z :=
  Eval vm_compute in fractional 3 32 <$> first_primes 64.
Definition IV256 : list Z :=
  Eval vm_compute in fractional 2 32 <$> first_primes 8.

Definition SHA512 : parameters :=
  {| w := 64; K := K512; IV := IV512;
     Sigma0 := (28, 34, 39); Sigma1 := (14, 18, 41);
     sigma0 := (1, 8, 7); sigma1 := (19, 61, 6) |}.

Definition SHA256 : parameters :=
  {| w := 32; K := K256; IV := IV256;
     Sigma0 := (2, 13, 22); Sigma1 := (6, 11, 25);
     sigma0 := (7, 18, 3); sigma1 := (17, 19, 10) |}.

Section Hash.
Variable P : parameters.

Definition trunc (x : Z) : Z := Z.land x (Z.ones (w P)).
Definition rotr (n x : Z) : Z :=
  Z.lor (Z.shiftr x n) (trunc (Z.shiftl x (w P - n))).
Definition big_sigma (r : Z * Z * Z) (x : Z) : Z :=
  let '(a, b, c) := r in Z.lxor (Z.lxor (rotr a x) (rotr b x)) (rotr c x).
Definition small_sigma (r : Z * Z * Z) (x : Z) : Z :=
  let '(a, b, c) := r in Z.lxor (Z.lxor (rotr a x) (rotr b x)) (Z.shiftr x c).
Definition Ch (x y z : Z) : Z :=
  Z.lxor (Z.land x y) (Z.land (Z.lxor x (Z.ones (w P))) z).
Definition Maj (x y z : Z) : Z :=
  Z.lxor (Z.lxor (Z.land x y) (Z.land x z)) (Z.land y z).

(** The message schedule: [window] holds the sixteen words
    [W t .. W (t+15)]. *)
Fixpoint schedule (n : nat) (window : list Z) : list Z :=
  match n, window with
  | S n, w0 :: rest =>
      let next := trunc (w0 + small_sigma (sigma0 P) (nth 0 rest 0)
                         + nth 8 rest 0
                         + small_sigma (sigma1 P) (nth 13 rest 0)) in
      w0 :: schedule n (rest ++ [next])
  | _, _ => []
  end.

Definition round (state : list Z) (kw : Z * Z) : list Z :=
  match state with
  | [a; b; c; d; e; f; g; h] =>
      let T1 := trunc (h + big_sigma (Sigma1 P) e + Ch e f g + kw.1 + kw.2) in
      let T2 := trunc (big_sigma (Sigma0 P) a + Maj a b c) in
      [trunc (T1 + T2); a; b; c; trunc (d + T1); e; f; g]
  | _ => state
  end.

Definition compress (H : list Z) (block : list Z) : list Z :=
  let W := schedule (length (K P)) block in
  zip_with (λ x y, trunc (x + y)) H (fold_left round (zip (K P) W) H).

(** Big-endian numbers. *)
Definition be_value (b : list Z) : Z := fold_left (λ a x, a * 256 + x) b 0.
Fixpoint be_bytes (n : nat) (x : Z) : list Z :=
  match n with
  | O => []
  | S n => Z.land (Z.shiftr x (8 * Z.of_nat n)) 255 :: be_bytes n x
  end.

Fixpoint chunks {A} (fuel size : nat) (l : list A) : list (list A) :=
  match fuel, l with
  | S fuel, _ :: _ => take size l :: chunks fuel size (drop size l)
  | _, _ => []
  end.

Definition word_bytes : nat := Z.to_nat (w P / 8).
Definition block_bytes : nat := (16 * word_bytes)%nat.

Definition pad (m : list Z) : list Z :=
  let len := length m in
  let tail := (1 + 2 * word_bytes)%nat in
  let zeros :=
    ((block_bytes - (len + tail) mod block_bytes) mod block_bytes)%nat in
  m ++ [128] ++ replicate zeros 0
    ++ be_bytes (2 * word_bytes)%nat (8 * Z.of_nat len).

Definition hash (m : bytes) : bytes :=
  let padded := pad (Z_of_byte <$> m) in
  let blocks := chunks (length padded) block_bytes padded in
  let words b := be_value <$> chunks 16 word_bytes b in
  let H := fold_left (λ H b, compress H (words b)) blocks (IV P) in
  byte_of_Z <$> (H ≫= be_bytes word_bytes).

End Hash.

Definition sha512 : bytes → bytes := hash SHA512.
Definition sha256 : bytes → bytes := hash SHA256.

End sha2.

(** *** tweetnacl and ed2curve

    The functions of [tweetnacl] and [ed2curve] that [key_pair.ts]
    calls, function by function and with the library's names, the field
    elements kept as numbers modulo [2^255 - 19] instead of sixteen
    limbs. *)
Module tweetnacl.

(** Little-endian numbers. *)
Definition le_value (b : bytes) : Z :=
  fold_right (λ x a, Z_of_byte x + 256 * a)%Z 0%Z b.
Fixpoint le_bytes (n : nat) (x : Z) : bytes :=
  match n with
  | O => []
  | S n => byte_of_Z x :: le_bytes n (Z.shiftr x 8)
  end.

Definition crypto_hash : bytes → bytes := sha2.sha512.

(** **** The field *)

Local Open Scope bigZ_scope.

Definition gf : Type := bigZ.
Definition p25519 : gf := 2 ^ 255 - 19.
Definition gf0 : gf := 0.
Definition gf1 : gf := 1.
(** [A], [Z], [M] and [S] of tweetnacl. *)
Definition fe_add (a b : gf) : gf := (a + b) mod p25519.
Definition fe_sub (a b : gf) : gf := (a - b) mod p25519.
Definition fe_mul (a b : gf) : gf := (a * b) mod p25519.
Definition fe_sq (a : gf) : gf := fe_mul a a.

Fixpoint power (x : gf) (e : positive) : gf :=
  match e with
  | xH => x
  | xO e => fe_sq (power x e)
  | xI e => fe_mul x (fe_sq (power x e))
  end.
(** [x^(p-2)] and [x^((p-5)/8)] *)
Definition inv25519 (x : gf) : gf := power x (2 ^ 255 - 21).
Definition pow2523 (x : gf) : gf := power x (2 ^ 252 - 3).

Definition unpack25519 (n : bytes) : gf :=
  BigZ.of_Z (Z.land (le_value (take 32 n)) (Z.ones 255)) mod p25519.
Definition pack25519 (x : gf) : bytes := le_bytes 32 (BigZ.to_Z (x mod p25519)).
Definition par25519 (x : gf) : bool := Z.odd (BigZ.to_Z (x mod p25519)).
Definition neq25519 (a b : gf) : bool :=
  negb (BigZ.eqb (a mod p25519) (b mod p25519)).

(** **** The Edwards curve *)

Definition D : gf :=
  BigZ.of_Z 0x52036cee2b6ffe738cc740797779e89800700a4d4141d8ab75eb4dca135978a3.
Definition D2 : gf :=
  BigZ.of_Z 0x2406d9dc56dffce7198e80f2eef3d13000e0149a8283b156ebd69b9426b2f159.
Definition X : gf :=
  BigZ.of_Z 0x216936d3cd6e53fec0a4e231fdd6dc5c692cc7609525a7b2c9562d608f25d51a.
Definition Y : gf :=
  BigZ.of_Z 0x6666666666666666666666666666666666666666666666666666666666666658.
Definition I : gf :=
  BigZ.of_Z 0x2b8324804fc1df0b2b4d00993dfbd7a72f431806ad2fe478c4ee1b274a0ea0b0.
Definition L : Z :=
  0x1000000000000000000000000000000014def9dea2f79cd65812631a5cf5d3ed%Z.

(** A point in extended coordinates. *)
Definition point : Type := gf * gf * gf * gf.

Definition add (p q : point) : point :=
  let '(p0, p1, p2, p3) := p in
  let '(q0, q1, q2, q3) := q in
  let a := fe_mul (fe_sub p1 p0) (fe_sub q1 q0) in
  let b := fe_mul (fe_add p0 p1) (fe_add q0 q1) in
  let c := fe_mul (fe_mul p3 q3) D2 in
  let d := fe_mul p2 q2 in
  let d := fe_add d d in
  let e := fe_sub b a in
  let f := fe_sub d c in
  let g := fe_add d c in
  let h := fe_add b a in
  (fe_mul e f, fe_mul h g, fe_mul g f, fe_mul e h).

Definition cswap (p q : point) (b : bool) : point * point :=
  if b then (q, p) else (p, q).

(** [s] times [q], for the 256 bits of [s]. *)
Definition scalarmult (q : point) (s : Z) : point :=
  (fold_left
     (λ '(p, q) i,
        let b := Z.testbit s (Z.of_nat i) in
        let '(p, q) := cswap p q b in
        let q := add q p in
        let p := add p p in
        cswap p q b)
     (rev (seq 0 256)) ((gf0, gf1, gf1, gf0), q)).1.

Definition scalarbase (s : Z) : point := scalarmult (X, Y, gf1, fe_mul X Y) s.

Definition pack (p : point) : bytes :=
  let '(p0, p1, p2, _) := p in
  let zi := inv25519 p2 in
  let tx := fe_mul p0 zi in
  let ty := fe_mul p1 zi in
  le_bytes 32 (Z.lor (BigZ.to_Z ty)
                 (if par25519 tx then Z.shiftl 1 255 else 0)%Z).

(** The point of [p], negated; [None] when [p] is not on the curve. *)
Definition unpackneg (p : bytes) : option point :=
  let r1 := unpack25519 p in
  let num := fe_sq r1 in
  let den := fe_mul num D in
  let num := fe_sub num gf1 in
  let den := fe_add gf1 den in
  let den2 := fe_sq den in
  let den4 := fe_sq den2 in
  let den6 := fe_mul den4 den2 in
  let t := fe_mul (fe_mul den6 num) den in
  let t := pow2523 t in
  let t := fe_mul (fe_mul (fe_mul t num) den) den in
  let r0 := fe_mul t den in
  let chk := fe_mul (fe_sq r0) den in
  let r0 := if neq25519 chk num then fe_mul r0 I else r0 in
  let chk := fe_mul (fe_sq r0) den in
  if neq25519 chk num then None
  else
    let sign := Z.testbit (le_value (take 32 p)) 255 in
    let r0 := if Bool.eqb (par25519 r0) sign then fe_sub gf0 r0 else r0 in
    Some (r0, r1, gf1, fe_mul r0 r1).

(** The scalar of a seed: the first half of its hash, clamped. *)
Definition clamp (d : bytes) : bytes :=
  le_bytes 32 (Z.lor (Z.land (le_value (take 32 d)) (Z.ones 255 - 7)) (Z.shiftl 1 254))%Z.

Definition modL (x : Z) : Z := BigZ.to_Z (BigZ.of_Z x mod BigZ.of_Z L).

Definition crypto_sign_keypair (seed : bytes) : nacl.keyPair :=
  let d := crypto_hash (take 32 seed) in
  let pk := pack (scalarbase (le_value (clamp d))) in
  nacl.KeyPair pk (take 32 seed ++ pk).

(** The detached signature that [crypto_sign] computes. *)
Definition crypto_sign (m sk : bytes) : bytes :=
  let d := crypto_hash (take 32 sk) in
  let a := le_value (clamp d) in
  let r := modL (le_value (crypto_hash (drop 32 d ++ m))) in
  let R := pack (scalarbase r) in
  let h := modL (le_value (crypto_hash (R ++ slice 32 64 sk ++ m))) in
  R ++ le_bytes 32 (modL (r + h * a)%Z).

(** Whether [crypto_sign_open] accepts the signature. *)
Definition crypto_sign_open (m sig pk : bytes) : bool :=
  match unpackneg pk with
  | None => false
  | Some q =>
      let h := modL (le_value (crypto_hash (take 32 sig ++ pk ++ m))) in
      let p := scalarmult q h in
      let q := scalarbase (le_value (slice 32 64 sig)) in
      bool_decide (pack (add p q) = take 32 sig)
  end.

(** **** The Montgomery curve *)

Definition crypto_scalarmult (n p : bytes) : bytes :=
  let z := Z.lor (Z.land (le_value (take 32 n)) (Z.ones 255 - 7)) (Z.shiftl 1 254) in
  let x := unpack25519 p in
  let '(a, b, c, d) :=
    fold_left
      (λ '(a, b, c, d) i,
         let r := Z.testbit z (Z.of_nat i) in
         let '(a, b) := if r then (b, a) else (a, b) in
         let '(c, d) := if r then (d, c) else (c, d) in
         let e := fe_add a c in
         let a := fe_sub a c in
         let c := fe_add b d in
         let b := fe_sub b d in
         let d := fe_sq e in
         let f := fe_sq a in
         let a := fe_mul c a in
         let c := fe_mul b e in
         let e := fe_add a c in
         let a := fe_sub a c in
         let b := fe_sq a in
         let c := fe_sub d f in
         let a := fe_mul c (BigZ.of_Z 121665) in
         let a := fe_add a d in
         let c := fe_mul c a in
         let a := fe_mul d f in
         let d := fe_mul b x in
         let b := fe_sq e in
         let '(a, b) := if r then (b, a) else (a, b) in
         let '(c, d) := if r then (d, c) else (c, d) in
         (a, b, c, d))
      (rev (seq 0 255)) (gf1, x, gf0, gf1) in
  pack25519 (fe_mul a (inv25519 c)).

Definition _9 : bytes := le_bytes 32 9.
Definition crypto_scalarmult_base (n : bytes) : bytes := crypto_scalarmult n _9.

(** **** The secret box: XSalsa20 and Poly1305 *)

Local Open Scope Z_scope.

(** Words of 32 bits, little-endian. *)
Definition ld32 (b : bytes) : Z := le_value (take 4 b).
Definition st32 (x : Z) : bytes := le_bytes 4 x.
Definition words (b : bytes) : list Z :=
  (λ i, ld32 (drop (4 * i) b)) <$> seq 0 (length b / 4).

Definition L32 (x c : Z) : Z :=
  Z.land (Z.lor (Z.shiftl x c) (Z.shiftr (Z.land x (Z.ones 32)) (32 - c)))
    (Z.ones 32).

Definition word (x : list Z) (i : nat) : Z := nth i x 0.
Definition plus32 (a b : Z) : Z := Z.land (a + b) (Z.ones 32).

(** One quarter of a round, on the words at [a], [b], [c] and [d]. *)
Definition quarter (a b c d : nat) (x : list Z) : list Z :=
  let x := <[b := Z.lxor (word x b) (L32 (plus32 (word x a) (word x d)) 7)]> x in
  let x := <[c := Z.lxor (word x c) (L32 (plus32 (word x b) (word x a)) 9)]> x in
  let x := <[d := Z.lxor (word x d) (L32 (plus32 (word x c) (word x b)) 13)]> x in
  <[a := Z.lxor (word x a) (L32 (plus32 (word x d) (word x c)) 18)]> x.

Definition double_round (x : list Z) : list Z :=
  let x := quarter 0 4 8 12 x in
  let x := quarter 5 9 13 1 x in
  let x := quarter 10 14 2 6 x in
  let x := quarter 15 3 7 11 x in
  let x := quarter 0 1 2 3 x in
  let x := quarter 5 6 7 4 x in
  let x := quarter 10 11 8 9 x in
  quarter 15 12 13 14 x.

(** [core_salsa20] for [h = false] and [core_hsalsa20] for [h = true]. *)
Definition core (inp k c : bytes) (h : bool) : bytes :=
  let cw := words c in
  let kw := words k in
  let iw := words inp in
  let y := [word cw 0; word kw 0; word kw 1; word kw 2;
            word kw 3; word cw 1; word iw 0; word iw 1;
            word iw 2; word iw 3; word cw 2; word kw 4;
            word kw 5; word kw 6; word kw 7; word cw 3] in
  let x := Nat.iter 10 double_round y in
  if h then concat (st32 <$> (word x <$> [0; 5; 10; 15; 6; 7; 8; 9]%nat))
  else concat (st32 <$> zip_with plus32 x y).

Definition sigma : bytes :=
  (λ c, byte_of_N (N_of_ascii c)) <$> list_ascii_of_string "expand 32-byte k".

Definition xor_bytes (a b : bytes) : bytes :=
  zip_with (λ x y, byte_of_Z (Z.lxor (Z_of_byte x) (Z_of_byte y))) a b.

(** [b] bytes of the Salsa20 stream for the nonce [n] of 8 bytes. *)
Definition crypto_stream_salsa20 (b : nat) (n k : bytes) : bytes :=
  take b
    (concat ((λ i, core (n ++ le_bytes 8 (Z.of_nat i)) k sigma false)
             <$> seq 0 ((b + 63) / 64))).

(** [b] bytes of the XSalsa20 stream for the nonce [n] of 24 bytes. *)
Definition crypto_stream (b : nat) (n k : bytes) : bytes :=
  let s := core (take 16 n) k sigma true in
  crypto_stream_salsa20 b (drop 16 n) s.

Fixpoint blocks (fuel : nat) (m : bytes) : list bytes :=
  match fuel, m with
  | S fuel, _ :: _ => take 16 m :: blocks fuel (drop 16 m)
  | _, _ => []
  end.

Definition crypto_onetimeauth (m k : bytes) : bytes :=
  let r := Z.land (le_value (take 16 k)) 0x0ffffffc0ffffffc0ffffffc0fffffff in
  let s := le_value (drop 16 k) in
  let h :=
    fold_left
      (λ h blk, ((h + le_value (blk ++ ["001"%byte])) * r) mod (2 ^ 130 - 5))
      (blocks (length m) m) 0 in
  le_bytes 16 (h + s).

(** [nacl.secretbox] and [nacl.secretbox.open], after the size
    checks: the authenticator of the cipher text, then the cipher
    text. *)
Definition secretbox (m n k : bytes) : bytes :=
  let stream := crypto_stream (32 + length m) n k in
  let c := xor_bytes m (drop 32 stream) in
  crypto_onetimeauth c (take 32 stream) ++ c.

Definition secretbox_open (box n k : bytes) : option bytes :=
  if decide (length box < 16)%nat then None
  else
    let stream := crypto_stream (32 + (length box - 16)) n k in
    let c := drop 16 box in
    if decide (crypto_onetimeauth c (take 32 stream) = take 16 box)
    then Some (xor_bytes c (drop 32 stream))
    else None.

Definition crypto_box_beforenm (y x : bytes) : bytes :=
  core (replicate 16 "000"%byte) (crypto_scalarmult x y) sigma true.

(** **** The functions of the [nacl] object *)

Definition sign_keyPair (g : entropy) : nacl.keyPair * entropy :=
  let '(seed, g) := draw 32 g in (crypto_sign_keypair seed, g).

Definition sign_keyPair_fromSecretKey (secretKey : bytes)
  : result nacl.keyPair :=
  if decide (length secretKey = 64)%nat
  then Ok (nacl.KeyPair (slice 32 64 secretKey) secretKey)
  else Throw "bad secret key size".

Definition sign_detached (msg secretKey : bytes) : result bytes :=
  if decide (length secretKey = 64)%nat then Ok (crypto_sign msg secretKey)
  else Throw "bad secret key size".

Definition sign_detached_verify (msg sig publicKey : bytes) : result bool :=
  if decide (length sig = 64)%nat then
    if decide (length publicKey = 32)%nat
    then Ok (crypto_sign_open msg sig publicKey)
    else Throw "bad public key size"
  else Throw "bad signature size".

Definition box_keyPair (g : entropy) : nacl.keyPair * entropy :=
  let '(sk, g) := draw 32 g in
  (nacl.KeyPair (crypto_scalarmult_base sk) sk, g).

Definition box_keyPair_fromSecretKey (secretKey : bytes)
  : result nacl.keyPair :=
  if decide (length secretKey = 32)%nat
  then Ok (nacl.KeyPair (crypto_scalarmult_base secretKey) secretKey)
  else Throw "bad secret key size".

(** [checkBoxLengths], then [checkLengths] on the nonce. *)
Definition check_lengths {A} (pk sk n : bytes) (body : result A) : result A :=
  if decide (length pk = 32)%nat then
    if decide (length sk = 32)%nat then
      if decide (length n = 24)%nat then body
      else Throw "bad nonce size"
    else Throw "bad secret key size"
  else Throw "bad public key size".

(** The public key is what [convertPublicKey] returned, [null]
    included, which [checkArrayTypes] refuses. *)
Definition box (msg nonce : bytes) (publicKey : option bytes)
    (secretKey : bytes) : result bytes :=
  match publicKey with
  | None => Throw "unexpected type, use Uint8Array"
  | Some publicKey =>
      check_lengths publicKey secretKey nonce
        (Ok (secretbox msg nonce (crypto_box_beforenm publicKey secretKey)))
  end.

Definition box_open (msg nonce publicKey secretKey : bytes)
  : result (option bytes) :=
  check_lengths publicKey secretKey nonce
    (Ok (secretbox_open msg nonce (crypto_box_beforenm publicKey secretKey))).

(** **** ed2curve *)

(** The Montgomery [u = (1 + y) / (1 - y)] of an Edwards point.

    No size is checked. [unpack25519] reads sixteen limbs
    [n[2*i] + (n[2*i+1] << 8)]: a missing high byte counts as 0, a
    missing low byte makes the limb [NaN], except for the last limb,
    which the mask [& 0x7fff] sets to 0. So a key of 29 bytes or more
    is read as if followed by zeros. With fewer bytes some limb is
    [NaN], every product carries it to all limbs, [pack25519] writes
    [NaN] limbs as zero bytes, the two checks of [unpackneg] compare
    zeros with zeros, and the result is 32 zero bytes. *)
Definition ed_convertPublicKey (pk : bytes) : option bytes :=
  if decide (length pk < 29)%nat then Some (replicate 32 "000"%byte)
  else
    match unpackneg pk with
    | None => None
    | Some (_, y, _, _) =>
        Some (pack25519 (fe_mul (fe_add gf1 y) (inv25519 (fe_sub gf1 y))))
    end.

(** [crypto_hash(d, sk, 32)] reads 32 bytes, a missing one as 0. *)
Definition ed_convertSecretKey (sk : bytes) : bytes :=
  clamp (crypto_hash (take 32 (sk ++ replicate 32 "000"%byte))).

#[export] Instance externals : Externals := {
  rng := entropy;
  base_encode := bs58.encode;
  base_decode := bs58.decode;
  nacl_sign_keyPair := sign_keyPair;
  nacl_sign_keyPair_fromSecretKey := sign_keyPair_fromSecretKey;
  nacl_sign_detached := sign_detached;
  nacl_sign_detached_verify := sign_detached_verify;
  nacl_box_keyPair := box_keyPair;
  nacl_box_keyPair_fromSecretKey := box_keyPair_fromSecretKey;
  nacl_randomBytes := draw;
  nacl_box := box;
  nacl_box_open := box_open;
  convertPublicKey := ed_convertPublicKey;
  convertSecretKey := ed_convertSecretKey
}.

End tweetnacl.

(** ** Arrays as shared objects

    A [Uint8Array] is an object: two references to it see the same
    bytes.  Where that matters, a byte array is a location of a heap,
    an object with a [data] field holds the location, and its bytes are
    read from the heap when they are used. *)
Module aliasing.
Section Heap.
Context `{Externals}.

Definition loc : Type := positive.

Record PublicKey_object : Type :=
  mkPublicKey_object { object_keyType : KeyType; object_data : loc }.

Record KeyPairEd25519_object : Type :=
  mkKeyPairEd25519_object {
    object_publicKey : PublicKey_object;
    object_secretKey : string
  }.

(** A new array, at a location not in use. *)
Definition alloc (b : bytes) (h : gmap loc bytes) : loc * gmap loc bytes :=
  let a := fresh (dom h) in (a, <[a := b]> h).

(** [array[i] = v]; an index out of range is ignored. *)
Definition store (a : loc) (i : nat) (v : byte) (h : gmap loc bytes)
  : gmap loc bytes :=
  alter (λ b, <[i := v]> b) a h.

(** Modelled from the spec: the constructor that [PublicKey] inherits
    from [Assignable] ([./enums]), called as
    [new PublicKey({ keyType, data })].  The spec has the entity wrap
    the mutable byte array it is given: the object keeps the reference,
    not a copy of the bytes. *)
Definition PublicKey_construct (keyType : KeyType) (data : loc)
  : PublicKey_object :=
  {| object_keyType := keyType; object_data := data |}.

(** [new KeyPairEd25519(secretKey)]: the secret key is a string, and
    the public key is the array that [nacl.sign.keyPair.fromSecretKey]
    has returned, a new one. *)
Definition KeyPairEd25519_construct (secretKey : string) (h : gmap loc bytes)
  : result (KeyPairEd25519_object * gmap loc bytes) :=
  sk ← base_decode secretKey;
  keyPair ← nacl_sign_keyPair_fromSecretKey sk;
  let '(pk, h) := alloc (nacl.publicKey keyPair) h in
  Ok ({| object_publicKey := PublicKey_construct ED25519 pk;
         object_secretKey := secretKey |}, h).

(** The public key that an object stands for in a heap. *)
Definition contents (k : PublicKey_object) (h : gmap loc bytes)
  : option PublicKey :=
  mkPublicKey (object_keyType k) <$> h !! object_data k.

End Heap.
End aliasing.

(** ** Test data

    The keys and messages of [test/key_pair.test.js], and a key whose two
    halves do not belong together. *)
Module vectors.

Definition bytes_of_string (s : string) : bytes :=
  (λ c, byte_of_N (N_of_ascii c)) <$> list_ascii_of_string s.

Definition secret_A : string :=
  "5JueXZhEEVqGVT5powZ5twyPP8wrap2K7RdAYGGdjBwiBdd7Hh6aQxMP1u3Ma9Yanq1nEv32EW7u8kUJsZ6f315C".
Definition public_A : string :=
  "ed25519:EWrekY1deMND7N3Q7Dixxj12wD7AVjFRt2H9q21QHUSW".

Definition secret_B : string :=
  "26x56YPzPDro5t2smQfGcYAPy3j7R2jB2NUb7xKbAGK23B6x4WNQPh3twb6oDksFov5X8ts5CtntUNbpQpAKFdbR".
Definition public_B : string :=
  "ed25519:AYWv9RAN1hpSQA4p1DLhCNnpnNXwxhfH9qeHN8B4nJ59".
Definition signature_B : string :=
  "26gFr4xth7W9K7HPWAxq3BLsua8oTy378mC1MYFiEXHBBpeBjP8WmJEJo8XTBowetvqbRshcQEtBUdwQcAqDyP8T".

Definition canonical_key : string :=
  "ed25519:2wyRcSwSuHtRVmkMCGjPwnzZmQLeXLzLLyED1NDMt4BjnKgQL6tF85yBx6Jr26D2dUNeC716RBoTxntVHsegogYw".

(** The encoding of 64 bytes that are the seed of [secret_A] followed by
    the public key of [secret_B]: [base_encode] of the first 32 bytes of
    the one and the last 32 bytes of the other. *)
Definition secret_mixed : string :=
  "5JueXZhEEVqGVT5powZ5twyPP8wrap2K7RdAYGGdjBwi7fHNgaFJnJocJh4mU9AK2Uoa65TohUXkQZqSQfGKXphq".

(** [new Uint8Array(sha256.array('message'))] *)
Definition message : bytes := sha2.sha256 (bytes_of_string "message").

(** [new Uint8Array([0x1, 0x2, 0x3, 0x4, 0x5, 0x6])] *)
Definition plaintext : bytes := byte_of_Z <$> [1; 2; 3; 4; 5; 6]%Z.

(** A state of the random source: the bytes 1, 2, 3, ... *)
Definition source : entropy := λ i, byte_of_Z (Z.of_nat i + 1).

(** What a call returned, with a default for a call that threw. *)
Definition returned {A} (d : A) (r : result A) : A :=
  match r with
  | Ok a => a
  | Throw _ => d
  end.

Definition no_pair : KeyPairEd25519 :=
  mkKeyPairEd25519 (mkPublicKey ED25519 []) "".

(** [new KeyPairEd25519(secret_A)], and [KeyPair.fromString] of the
    canonical key of the tests, with tweetnacl. *)
Definition pair_A : KeyPairEd25519 :=
  Eval vm_compute in
    returned no_pair (KeyPairEd25519_new (H := tweetnacl.externals) secret_A).

Definition pair_canonical : KeyPairEd25519 :=
  Eval vm_compute in
    returned no_pair
      (KeyPair_fromString (H := tweetnacl.externals) canonical_key).

(** What [pair_A.encryptMessage(plaintext, pair_A.publicKey)] returns
    when the random source is [source]. *)
Definition envelope_A : bytes :=
  Eval vm_compute in
    returned []
      (encryptMessage (H := tweetnacl.externals) pair_A plaintext
         (getPublicKey pair_A) source).1.

(** [new KeyPairEd25519(secret_B)], with tweetnacl. *)
Definition pair_B : KeyPairEd25519 :=
  Eval vm_compute in
    returned no_pair (KeyPairEd25519_new (H := tweetnacl.externals) secret_B).

(** A message of 32 bytes, and what [pair_B] reads in the envelope that
    carries it to [pair_A] when the random source is [source]. The
    message is chosen for the cipher text to have the same Poly1305
    authenticator, 1, under the key that the ephemeral key shares with
    [pair_A] and under the key that it shares with [pair_B]. *)
Definition double_plaintext : bytes :=
  byte_of_Z <$>
    [44; 128; 177; 142; 4; 23; 239; 74; 24; 234; 109; 63; 136; 30;
     245; 149; 209; 188; 99; 150; 84; 125; 212; 29; 40; 231; 102;
     101; 83; 47; 25; 116]%Z.
Definition double_opened : bytes :=
  byte_of_Z <$>
    [127; 142; 53; 240; 85; 159; 253; 62; 126; 234; 157; 241; 95; 68;
     217; 189; 33; 115; 211; 90; 251; 230; 95; 63; 242; 29; 100; 177;
     52; 254; 29; 146]%Z.

(** The key pair that [fromRandom] returns in the small model when the
    random source is [source]. *)
Definition toy_pair : KeyPairEd25519 :=
  Eval vm_compute in
    returned no_pair (KeyPairEd25519_fromRandom (H := toy.externals) source).1.

(** A heap with one array, and the key pair object made next to it. *)
Definition heap_1 : gmap aliasing.loc bytes := {[ 1%positive := plaintext ]}.

Definition object_A : aliasing.KeyPairEd25519_object * gmap aliasing.loc bytes :=
  Eval vm_compute in
    returned
      (aliasing.mkKeyPairEd25519_object
         (aliasing.mkPublicKey_object ED25519 1%positive) "", ∅)
      (aliasing.KeyPairEd25519_construct (H := tweetnacl.externals)
         secret_A heap_1).

End vectors.

(** ** More of what the collaborators promise *)

Section SizeContracts.
Context `{Externals}.

(** [nacl.sign]: a secret key has 64 bytes, a public key 32 and a
    signature 64 ([nacl.sign.secretKeyLength], [publicKeyLength],
    [signatureLength]); a secret key or a signature of another size is
    refused with an error. *)
Record sign_sizes : Prop := {
  fromSecretKey_returns : ∀ sk, length sk = 64 →
    ∃ kp, nacl_sign_keyPair_fromSecretKey sk = Ok kp
          ∧ length (nacl.publicKey kp) = 32;
  fromSecretKey_throws : ∀ sk, length sk ≠ 64 →
    throws (nacl_sign_keyPair_fromSecretKey sk);
  detached_returns : ∀ m sk, length sk = 64 →
    ∃ sig, nacl_sign_detached m sk = Ok sig ∧ length sig = 64;
  verify_returns : ∀ m sig pk, length sig = 64 → length pk = 32 →
    returns (nacl_sign_detached_verify m sig pk);
  verify_throws : ∀ m sig pk, length sig ≠ 64 →
    throws (nacl_sign_detached_verify m sig pk)
}.

(** The pair that [nacl.sign.keyPair()] generates is the one that
    [nacl.sign.keyPair.fromSecretKey] gives back for its secret key. *)
Definition keyPair_recovered : Prop :=
  ∀ g, let kp := (nacl_sign_keyPair g).1 in
       nacl_sign_keyPair_fromSecretKey (nacl.secretKey kp) = Ok kp.

(** [nacl.box]: the box of a message is 16 bytes longer than the
    message ([nacl.box.overheadLength]); a public key that is [null] is
    refused; a box of less than 16 bytes opens to [null]; the keys that
    [nacl.box.keyPair()] and [convertPublicKey] return have 32 bytes. *)
Record box_sizes : Prop := {
  box_returns : ∀ m n pk sk,
    length pk = 32 → length sk = 32 → length n = 24 →
    ∃ c, nacl_box m n (Some pk) sk = Ok c ∧ length c = length m + 16;
  box_null_throws : ∀ m n sk, throws (nacl_box m n None sk);
  box_keyPair_secretKey_length :
    ∀ g, length (nacl.secretKey (nacl_box_keyPair g).1) = 32;
  convertPublicKey_length :
    ∀ pk cpk, convertPublicKey pk = Some cpk → length cpk = 32;
  box_open_short : ∀ c n pk sk,
    length c < 16 → length pk = 32 → length sk = 32 → length n = 24 →
    nacl_box_open c n pk sk = Ok None;
  box_open_length : ∀ c n pk sk m,
    nacl_box_open c n pk sk = Ok (Some m) → length c = length m + 16
}.

(** What [nacl.box.open] returns is what [nacl.box] had been given:
    the box of the returned message, with the same nonce and the same
    keys, is the box that was opened, byte for byte. *)
Definition box_open_sound : Prop :=
  ∀ c n pk sk m,
    nacl_box_open c n pk sk = Ok (Some m) → nacl_box m n (Some pk) sk = Ok c.

End SizeContracts.

(** * Properties *)

(** ** Facts about the string operations *)

Section Strings.

Lemma split_length c s : length (split c s) = S (occurrences c s).
Proof.
  induction s as [|d s IH]; simpl; [done|].
  destruct (Ascii.eqb d c); simpl; [by rewrite IH|].
  destruct (split c s) as [|p ps]; simpl in *; lia.
Qed.

Lemma split_none c s : occurrences c s = 0 → split c s = [s].
Proof.
  induction s as [|d s IH]; simpl; [done|].
  destruct (Ascii.eqb d c); simpl; [lia|].
  intros Hs. by rewrite (IH Hs).
Qed.

Lemma split_at c t e :
  occurrences c t = 0 → split c (t +:+ String c e) = t :: split c e.
Proof.
  induction t as [|d t IH]; simpl.
  - intros _. by rewrite Ascii.eqb_refl.
  - destruct (Ascii.eqb d c); simpl; [lia|].
    intros Ht. by rewrite (IH Ht).
Qed.

Lemma split_one c t e :
  occurrences c t = 0 → occurrences c e = 0 →
  split c (t +:+ String c e) = [t; e].
Proof. intros Ht He. by rewrite split_at, split_none. Qed.

Lemma occurrences_app c s t :
  occurrences c (s +:+ t) = occurrences c s + occurrences c t.
Proof. induction s as [|d s IH]; simpl; [done|]. rewrite IH. lia. Qed.

(** A string with exactly one [c] is a piece, [c], and a piece. *)
Lemma one_occurrence c s :
  occurrences c s = 1 →
  ∃ t e, s = t +:+ String c e ∧ occurrences c t = 0 ∧ occurrences c e = 0.
Proof.
  induction s as [|d s IH]; simpl; [done|].
  destruct (Ascii.eqb_spec d c) as [->|Hd]; simpl.
  - intros Hs. exists "", s. repeat split. lia.
  - intros Hs. destruct (IH Hs) as (t & e & -> & Ht & He).
    exists (String d t), e. repeat split; [|done].
    simpl. destruct (Ascii.eqb_spec d c); [done|]. by rewrite Ht.
Qed.

Local Ltac code_unit_range := cbn; lia.

Lemma lower_char_letter c (x : ascii) :
  (97 ≤ N_of_ascii x ≤ 122)%N →
  lower_char c = x → c = x ∨ c = ascii_of_N (N_of_ascii x - 32).
Proof.
  intros Hx <-. unfold lower_char.
  destruct ((65 <=? N_of_ascii c) && (N_of_ascii c <=? 90))%N eqn:E; [|by left].
  right. apply andb_prop in E as [E1 E2].
  apply N.leb_le in E1, E2.
  assert (N_of_ascii (ascii_of_N (N_of_ascii c + 32)) = (N_of_ascii c + 32)%N)
    as -> by (apply N_ascii_embedding; lia).
  rewrite N.add_sub. by rewrite ascii_N_embedding.
Qed.

Lemma lower_char_digit c (x : ascii) :
  (N_of_ascii x < 65)%N → lower_char c = x → c = x.
Proof.
  intros Hx <-. unfold lower_char in *.
  destruct ((65 <=? N_of_ascii c) && (N_of_ascii c <=? 90))%N eqn:E; [|done].
  apply andb_prop in E as [E1 E2]. apply N.leb_le in E1, E2.
  rewrite N_ascii_embedding in Hx; lia.
Qed.

Lemma upper_char_letter c (x : ascii) :
  (65 ≤ N_of_ascii x ≤ 90)%N →
  upper_char c = x → c = x ∨ c = ascii_of_N (N_of_ascii x + 32).
Proof.
  intros Hx <-. unfold upper_char.
  destruct ((97 <=? N_of_ascii c) && (N_of_ascii c <=? 122))%N eqn:E; [|by left].
  right. apply andb_prop in E as [E1 E2].
  apply N.leb_le in E1, E2.
  assert (N_of_ascii (ascii_of_N (N_of_ascii c - 32)) = (N_of_ascii c - 32)%N)
    as -> by (apply N_ascii_embedding; lia).
  rewrite N.sub_add by lia. by rewrite ascii_N_embedding.
Qed.

Lemma upper_char_digit c (x : ascii) :
  (N_of_ascii x < 65)%N → upper_char c = x → c = x.
Proof.
  intros Hx <-. unfold upper_char in *.
  destruct ((97 <=? N_of_ascii c) && (N_of_ascii c <=? 122))%N eqn:E; [|done].
  apply andb_prop in E as [E1 E2]. apply N.leb_le in E1, E2.
  rewrite N_ascii_embedding in Hx; lia.
Qed.

(** [toLowerCase t] is ["ed25519"] exactly for the four spellings, and
    so is [toUpperCase t = "ED25519"]: the two parsers accept the same
    tags. *)
Lemma toLowerCase_ed25519 t :
  toLowerCase t = "ed25519" ↔ t ∈ ed25519_spellings.
Proof.
  split.
  - unfold toLowerCase.
    destruct t as [|c1 [|c2 [|c3 [|c4 [|c5 [|c6 [|c7 [|c8 t]]]]]]]];
      simpl; try discriminate.
    intros [= H1 H2 H3 H4 H5 H6 H7].
    apply lower_char_letter in H1 as [->| ->]; try code_unit_range;
    apply lower_char_letter in H2 as [->| ->]; try code_unit_range;
    apply lower_char_digit in H3 as ->; try code_unit_range;
    apply lower_char_digit in H4 as ->; try code_unit_range;
    apply lower_char_digit in H5 as ->; try code_unit_range;
    apply lower_char_digit in H6 as ->; try code_unit_range;
    apply lower_char_digit in H7 as ->; try code_unit_range;
    vm_compute; set_solver.
  - unfold ed25519_spellings. intros Ht.
    repeat (apply elem_of_cons in Ht as [->|Ht]; [reflexivity|]).
    by apply elem_of_nil in Ht.
Qed.

Lemma toUpperCase_ED25519 t :
  toUpperCase t = "ED25519" ↔ t ∈ ed25519_spellings.
Proof.
  split.
  - unfold toUpperCase.
    destruct t as [|c1 [|c2 [|c3 [|c4 [|c5 [|c6 [|c7 [|c8 t]]]]]]]];
      simpl; try discriminate.
    intros [= H1 H2 H3 H4 H5 H6 H7].
    apply upper_char_letter in H1 as [->| ->]; try code_unit_range;
    apply upper_char_letter in H2 as [->| ->]; try code_unit_range;
    apply upper_char_digit in H3 as ->; try code_unit_range;
    apply upper_char_digit in H4 as ->; try code_unit_range;
    apply upper_char_digit in H5 as ->; try code_unit_range;
    apply upper_char_digit in H6 as ->; try code_unit_range;
    apply upper_char_digit in H7 as ->; try code_unit_range;
    vm_compute; set_solver.
  - unfold ed25519_spellings. intros Ht.
    repeat (apply elem_of_cons in Ht as [->|Ht]; [reflexivity|]).
    by apply elem_of_nil in Ht.
Qed.

End Strings.

(** ** Layout of the typed-array operations *)

Section Arrays.

Lemma Uint8Array_new_length n : length (Uint8Array_new n) = n.
Proof. apply length_replicate. Qed.

Lemma slice_prefix n (a b : bytes) : length a = n → slice 0 n (a ++ b) = a.
Proof.
  intros <-. unfold slice. rewrite drop_0, Nat.sub_0_r.
  by rewrite take_app_length.
Qed.

Lemma slice_middle n k (a b c : bytes) :
  length a = n → length b = k → slice n (n + k) (a ++ b ++ c) = b.
Proof.
  intros <- <-. unfold slice. rewrite drop_app_length.
  replace (length a + length b - length a) with (length b) by lia.
  by rewrite take_app_length.
Qed.

Lemma slice_from_suffix n (a b : bytes) :
  length a = n → slice_from n (a ++ b) = b.
Proof. intros <-. unfold slice_from. by rewrite drop_app_length. Qed.

Lemma Uint8Array_set_fits (dst src : bytes) offset :
  offset + length src ≤ length dst →
  Uint8Array_set dst src offset
  = Ok (take offset dst ++ src ++ drop (offset + length src) dst).
Proof. intros Hfit. unfold Uint8Array_set. by rewrite decide_True. Qed.

Lemma bind_Ok {A B} (a : A) (f : A → result B) : (Ok a ≫= f) = f a.
Proof. reflexivity. Qed.

(** Filling a fresh array of the three sizes with [a] at 0, [b] after
    it and [c] after both never goes out of range and gives [a ++ b ++ c]. *)
Lemma Uint8Array_set_three (a b c : bytes) :
  (r ← Uint8Array_set (Uint8Array_new (length b + length c + length a)) a 0;
   r ← Uint8Array_set r b (length a);
   r ← Uint8Array_set r c (length a + length b);
   Ok r) = Ok (a ++ b ++ c).
Proof.
  rewrite Uint8Array_set_fits by (rewrite Uint8Array_new_length; lia).
  rewrite bind_Ok, take_0, Nat.add_0_l.
  unfold Uint8Array_new. rewrite drop_replicate.
  replace (length b + length c + length a - length a)
    with (length b + length c) by lia.
  rewrite Uint8Array_set_fits
    by (rewrite !length_app, length_replicate; lia).
  rewrite bind_Ok. cbn [app].
  rewrite take_app_length, drop_app_add', drop_replicate by done.
  replace (length b + length c - length b) with (length c) by lia.
  rewrite Uint8Array_set_fits
    by (rewrite !length_app, length_replicate; lia).
  rewrite bind_Ok.
  rewrite (app_assoc a b), <- length_app, take_app_length.
  rewrite drop_app_add', drop_replicate by done.
  rewrite Nat.sub_diag. cbn [replicate]. by rewrite app_nil_r, <- app_assoc.
Qed.

End Arrays.

(** ** Parsing and printing keys *)

Section Parsing.
Context `{Externals}.

Lemma str_to_key_type_known t :
  t ∈ ed25519_spellings → str_to_key_type t = Ok ED25519.
Proof.
  intros Ht. unfold str_to_key_type.
  apply toLowerCase_ed25519 in Ht. by rewrite Ht.
Qed.

Lemma str_to_key_type_unknown t :
  t ∉ ed25519_spellings → str_to_key_type t = Throw ("Unknown key type " +:+ t).
Proof.
  intros Ht. unfold str_to_key_type.
  destruct (String.eqb_spec (toLowerCase t) "ed25519") as [E|E]; [|done].
  by apply toLowerCase_ed25519 in E.
Qed.

Lemma toUpperCase_known t :
  t ∈ ed25519_spellings → String.eqb (toUpperCase t) "ED25519" = true.
Proof. intros Ht. apply toUpperCase_ED25519 in Ht. by rewrite Ht. Qed.

Lemma toUpperCase_unknown t :
  t ∉ ed25519_spellings → String.eqb (toUpperCase t) "ED25519" = false.
Proof.
  intros Ht. destruct (String.eqb_spec (toUpperCase t) "ED25519") as [E|E]; [|done].
  by apply toUpperCase_ED25519 in E.
Qed.

Lemma PublicKey_fromString_bare s :
  occurrences ":" s = 0 →
  PublicKey_fromString s = base_decode s ≫= λ d, Ok (mkPublicKey ED25519 d).
Proof. intros Hs. unfold PublicKey_fromString. by rewrite split_none. Qed.

Lemma PublicKey_fromString_tagged t e :
  occurrences ":" t = 0 → occurrences ":" e = 0 →
  PublicKey_fromString (t +:+ ":" +:+ e)
  = str_to_key_type t ≫= λ k, base_decode e ≫= λ d, Ok (mkPublicKey k d).
Proof.
  intros Ht He. unfold PublicKey_fromString.
  change (":" +:+ e) with (String ":" e). by rewrite split_one.
Qed.

Lemma PublicKey_fromString_colons s :
  2 ≤ occurrences ":" s → PublicKey_fromString s = Throw invalid_format.
Proof.
  intros Hs. unfold PublicKey_fromString.
  rewrite !decide_False; [done|rewrite split_length; lia..].
Qed.

Lemma KeyPair_fromString_bare s :
  occurrences ":" s = 0 → KeyPair_fromString s = KeyPairEd25519_new s.
Proof. intros Hs. unfold KeyPair_fromString. by rewrite split_none. Qed.

Lemma KeyPair_fromString_tagged t e :
  occurrences ":" t = 0 → occurrences ":" e = 0 →
  KeyPair_fromString (t +:+ ":" +:+ e)
  = if String.eqb (toUpperCase t) "ED25519" then KeyPairEd25519_new e
    else Throw ("Unknown curve: " +:+ t).
Proof.
  intros Ht He. unfold KeyPair_fromString.
  change (":" +:+ e) with (String ":" e). by rewrite split_one.
Qed.

Lemma KeyPair_fromString_colons s :
  2 ≤ occurrences ":" s → KeyPair_fromString s = Throw invalid_format.
Proof.
  intros Hs. unfold KeyPair_fromString.
  rewrite !decide_False; [done|rewrite split_length; lia..].
Qed.

(** A key pair keeps the string it was made from. *)
Lemma KeyPairEd25519_new_secretKey s kp :
  KeyPairEd25519_new s = Ok kp → secretKey kp = s.
Proof.
  unfold KeyPairEd25519_new. destruct (base_decode s) as [sk|]; [|done].
  cbn. destruct (nacl_sign_keyPair_fromSecretKey sk); [|done].
  cbn. by intros [= <-].
Qed.

Lemma KeyPairEd25519_new_decodes s kp :
  KeyPairEd25519_new s = Ok kp → returns (base_decode s).
Proof.
  unfold KeyPairEd25519_new. destruct (base_decode s) as [sk|]; [|done].
  intros _. by exists sk.
Qed.

(** The keys that the constructor and the parser make are of type
    [ED25519]. *)
Lemma KeyPairEd25519_new_keyType s kp :
  KeyPairEd25519_new s = Ok kp → keyType (publicKey kp) = ED25519.
Proof.
  unfold KeyPairEd25519_new. destruct (base_decode s) as [sk|]; [|done].
  cbn. destruct (nacl_sign_keyPair_fromSecretKey sk); [|done].
  cbn. by intros [= <-].
Qed.

Lemma PublicKey_fromString_keyType s k :
  PublicKey_fromString s = Ok k → keyType k = ED25519.
Proof.
  unfold PublicKey_fromString. cbv zeta.
  destruct (decide (length (split ":" s) = 1)) as [_|_].
  { destruct (base_decode _); cbn; [|done]. by intros [= <-]. }
  destruct (decide (length (split ":" s) = 2)) as [_|_]; [|done].
  unfold str_to_key_type. destruct (String.eqb _ _); cbn; [|done].
  destruct (base_decode _); cbn; [|done]. by intros [= <-].
Qed.

(** [toString] and [verify] by the key type. *)
Lemma PublicKey_toString_ED25519 k :
  keyType k = ED25519 →
  PublicKey_toString k = Ok ("ed25519:" +:+ base_encode (data k)).
Proof.
  intros Hk. unfold PublicKey_toString, key_type_to_str.
  by rewrite decide_True.
Qed.

Lemma PublicKey_toString_unknown k :
  keyType k ≠ ED25519 →
  PublicKey_toString k
  = Throw ("Unknown key type " +:+ number_to_string (keyType k)).
Proof.
  intros Hk. unfold PublicKey_toString, key_type_to_str.
  by rewrite decide_False.
Qed.

Lemma PublicKey_verify_ED25519 k m sig :
  keyType k = ED25519 →
  PublicKey_verify k m sig = nacl_sign_detached_verify m sig (data k).
Proof. intros Hk. unfold PublicKey_verify. by rewrite decide_True. Qed.

Lemma canonical_colon x : 1 ≤ occurrences ":" ("ed25519:" +:+ x).
Proof.
  change ("ed25519:" +:+ x) with ("ed25519" +:+ String ":" x).
  rewrite occurrences_app. cbn. lia.
Qed.

(** C6. Both parsers go by the number of colons of their input: none,
    and the input is a bare key of curve ED25519; one, and it is a tag
    and an encoded key, the tag accepted in any of the spellings of
    ed25519 that differ by case only and refused as an unknown key type
    (resp. unknown curve) otherwise; two or more, and both throw the
    format error. *)
Theorem fromString_by_colons (s : string) :
  (occurrences ":" s = 0 →
     PublicKey_fromString s
       = (base_decode s ≫= λ d, Ok (mkPublicKey ED25519 d))
     ∧ KeyPair_fromString s = KeyPairEd25519_new s)
  ∧ (occurrences ":" s = 1 →
     ∃ t e, s = t +:+ ":" +:+ e
       ∧ occurrences ":" t = 0 ∧ occurrences ":" e = 0
       ∧ (t ∈ ed25519_spellings →
            PublicKey_fromString s
              = (base_decode e ≫= λ d, Ok (mkPublicKey ED25519 d))
            ∧ KeyPair_fromString s = KeyPairEd25519_new e)
       ∧ (t ∉ ed25519_spellings →
            PublicKey_fromString s = Throw ("Unknown key type " +:+ t)
            ∧ KeyPair_fromString s = Throw ("Unknown curve: " +:+ t)))
  ∧ (2 ≤ occurrences ":" s →
     PublicKey_fromString s = Throw invalid_format
     ∧ KeyPair_fromString s = Throw invalid_format).
Proof.
  split; [|split].
  - intros Hs. split.
    + by apply PublicKey_fromString_bare.
    + by apply KeyPair_fromString_bare.
  - intros Hs. destruct (one_occurrence _ _ Hs) as (t & e & -> & Ht & He).
    exists t, e. split; [done|]. split; [done|]. split; [done|].
    change (String ":" e) with (":" +:+ e).
    rewrite PublicKey_fromString_tagged, KeyPair_fromString_tagged by done.
    split; intros Hk.
    + by rewrite str_to_key_type_known, toUpperCase_known.
    + by rewrite str_to_key_type_unknown, toUpperCase_unknown.
  - intros Hs. split.
    + by apply PublicKey_fromString_colons.
    + by apply KeyPair_fromString_colons.
Qed.

(** C7. Printing is canonical: a public key of type ED25519 prints as
    the lower-case tag, a colon and its encoded bytes, and every public
    key that a parser or the constructor of a key pair has made is of
    that type; a key pair prints as ["ed25519:"] and its secret. What
    is printed always has a colon, and a value parsed from a bare
    string prints with the tag all the same. A public key that holds
    another number as its key type prints nothing: [toString] throws. *)
Theorem toString_canonical :
  (∀ k : PublicKey,
     (keyType k = ED25519 →
        PublicKey_toString k = Ok ("ed25519:" +:+ base_encode (data k)))
     ∧ (keyType k ≠ ED25519 → throws (PublicKey_toString k))
     ∧ (∀ out, PublicKey_toString k = Ok out →
          out = "ed25519:" +:+ base_encode (data k)
          ∧ 1 ≤ occurrences ":" out))
  ∧ (∀ s k, PublicKey_fromString s = Ok k →
       PublicKey_toString k = Ok ("ed25519:" +:+ base_encode (data k)))
  ∧ (∀ s kp, KeyPairEd25519_new s = Ok kp →
       PublicKey_toString (getPublicKey kp)
       = Ok ("ed25519:" +:+ base_encode (data (getPublicKey kp))))
  ∧ (∀ kp : KeyPairEd25519,
     toString kp = "ed25519:" +:+ secretKey kp
     ∧ 1 ≤ occurrences ":" (toString kp))
  ∧ (∀ s, occurrences ":" s = 0 →
     (∀ k, PublicKey_fromString s = Ok k →
        PublicKey_toString k = Ok ("ed25519:" +:+ base_encode (data k))
        ∧ PublicKey_toString k ≠ Ok s)
     ∧ (∀ kp, KeyPair_fromString s = Ok kp →
        toString kp = "ed25519:" +:+ s ∧ toString kp ≠ s)).
Proof.
  split; [|split; [|split; [|split]]].
  - intros k. split; [apply PublicKey_toString_ED25519|]. split.
    + intros Hk. rewrite PublicKey_toString_unknown by done. by eexists.
    + intros out. destruct (decide (keyType k = ED25519)) as [Hk|Hk].
      * rewrite PublicKey_toString_ED25519 by done. intros [= <-].
        split; [done|apply canonical_colon].
      * by rewrite PublicKey_toString_unknown.
  - intros s k Hk. by apply PublicKey_toString_ED25519,
      (PublicKey_fromString_keyType s).
  - intros s kp Hkp. by apply PublicKey_toString_ED25519,
      (KeyPairEd25519_new_keyType s).
  - intros kp. split; [done|apply canonical_colon].
  - intros s Hs. split.
    + intros k Hk.
      rewrite PublicKey_toString_ED25519
        by by apply (PublicKey_fromString_keyType s).
      split; [done|]. intros [= E].
      pose proof (canonical_colon (base_encode (data k))) as Hcolon.
      rewrite E in Hcolon. lia.
    + intros kp Hkp. rewrite KeyPair_fromString_bare in Hkp by done.
      apply KeyPairEd25519_new_secretKey in Hkp.
      unfold toString. rewrite Hkp. split; [done|].
      intros E. pose proof (canonical_colon s) as Hcolon.
      rewrite E in Hcolon. lia.
Qed.

(** C5. With a codec whose alphabet has no colon, parsing the printed
    form of a key pair gives a key pair with the same secret key (the
    same key pair, in fact); and a string ["ed25519:" ++ e] that parses
    prints back as itself. *)
Theorem fromString_toString (Halphabet : codec_alphabet) :
  (∀ s kp, KeyPairEd25519_new s = Ok kp →
     ∃ kp', KeyPair_fromString (toString kp) = Ok kp'
            ∧ secretKey kp' = secretKey kp ∧ kp' = kp)
  ∧ (∀ e kp, KeyPair_fromString ("ed25519:" +:+ e) = Ok kp →
     toString kp = "ed25519:" +:+ e).
Proof.
  split.
  - intros s kp Hkp. exists kp.
    pose proof (KeyPairEd25519_new_secretKey _ _ Hkp) as Hs.
    destruct (KeyPairEd25519_new_decodes _ _ Hkp) as [sk Hsk].
    apply Halphabet in Hsk.
    unfold toString. rewrite Hs.
    change ("ed25519:" +:+ s) with ("ed25519" +:+ ":" +:+ s).
    by rewrite KeyPair_fromString_tagged.
  - intros e kp.
    destruct (decide (occurrences ":" e = 0)) as [He|He].
    + change ("ed25519:" +:+ e) with ("ed25519" +:+ ":" +:+ e).
      rewrite KeyPair_fromString_tagged by done. cbn.
      intros Hkp. apply KeyPairEd25519_new_secretKey in Hkp.
      unfold toString. by rewrite Hkp.
    + rewrite KeyPair_fromString_colons; [done|].
      change ("ed25519:" +:+ e) with ("ed25519" +:+ String ":" e).
      rewrite occurrences_app. cbn. lia.
Qed.

(** C10. No length is checked: an input with no colon, or with one
    colon after a spelling of ed25519, whose encoded part decodes to
    [d], parses to the ED25519 public key with data [d], whatever the
    length of [d]. *)
Theorem PublicKey_fromString_any_length (s : string) (d : bytes) :
  base_decode (encoded_part s) = Ok d →
  (occurrences ":" s = 0
   ∨ ∃ t e, s = t +:+ ":" +:+ e ∧ t ∈ ed25519_spellings
            ∧ occurrences ":" e = 0) →
  PublicKey_fromString s = Ok (mkPublicKey ED25519 d).
Proof.
  unfold encoded_part. intros Hd [Hs|(t & e & -> & Ht & He)].
  - rewrite PublicKey_fromString_bare by done.
    rewrite split_none in Hd by done. cbn in Hd. by rewrite Hd.
  - assert (occurrences ":" t = 0) as Ht0.
    { unfold ed25519_spellings in Ht.
      repeat (apply elem_of_cons in Ht as [->|Ht]; [reflexivity|]).
      by apply elem_of_nil in Ht. }
    rewrite PublicKey_fromString_tagged by done.
    change (":" +:+ e) with (String ":" e) in Hd.
    rewrite split_one in Hd by done. cbn in Hd.
    by rewrite str_to_key_type_known, Hd.
Qed.

End Parsing.

(** ** Envelopes *)

Section Envelopes.
Context `{Externals}.

(** What [encryptMessage] computes, once the random draws are named. *)
Lemma encryptMessage_unfold this m k g :
  let ekp := (nacl_box_keyPair g).1 in
  let nonce := (nacl_randomBytes 24 (nacl_box_keyPair g).2).1 in
  (encryptMessage this m k g).1
  = nacl_box m nonce (convertPublicKey (data k)) (nacl.secretKey ekp)
    ≫= λ cipher, Ok (nacl.publicKey ekp ++ nonce ++ cipher).
Proof.
  unfold encryptMessage.
  destruct (nacl_box_keyPair g) as [ekp g1]. cbn [fst snd].
  destruct (nacl_randomBytes 24 g1) as [nonce g2]. cbn [fst snd].
  destruct (nacl_box m nonce _ _) as [cipher|e]; [|done].
  rewrite bind_Ok. apply Uint8Array_set_three.
Qed.

Lemma encryptMessage_rng this m k g :
  (encryptMessage this m k g).2
  = (nacl_randomBytes 24 (nacl_box_keyPair g).2).2.
Proof.
  unfold encryptMessage.
  destruct (nacl_box_keyPair g) as [ekp g1]. cbn [fst snd].
  by destruct (nacl_randomBytes 24 g1) as [nonce g2].
Qed.

(** C8. When [encryptMessage] returns, its output is the ephemeral
    public key that [nacl.box.keyPair()] has just drawn in bytes 0..32,
    the nonce that [nacl.randomBytes(24)] has just drawn in bytes 32..56,
    and the output of [nacl.box] from byte 56 on; [decryptMessage] hands
    [nacl.box.open] the slices of its input at these same offsets. *)
Theorem envelope_layout (Hsizes : nacl_sizes) this m k g :
  let ekp := (nacl_box_keyPair g).1 in
  let nonce := (nacl_randomBytes 24 (nacl_box_keyPair g).2).1 in
  (∀ out, (encryptMessage this m k g).1 = Ok out →
     slice 0 32 out = nacl.publicKey ekp
     ∧ slice 32 56 out = nonce
     ∧ nacl_box m nonce (convertPublicKey (data k)) (nacl.secretKey ekp)
       = Ok (slice_from 56 out))
  ∧ (∀ receiver full sk, base_decode (secretKey receiver) = Ok sk →
     decryptMessage receiver full
     = nacl_box_open (slice_from 56 full) (slice 32 56 full) (slice 0 32 full)
         (convertSecretKey sk)).
Proof.
  intros ekp nonce. split.
  - intros out. rewrite encryptMessage_unfold. fold ekp nonce.
    destruct (nacl_box m nonce _ _) as [cipher|e]; [|done].
    rewrite bind_Ok. intros [= <-].
    assert (length (nacl.publicKey ekp) = 32) as Hepk
      by apply (box_keyPair_publicKey_length Hsizes).
    assert (length nonce = 24) as Hnonce
      by apply (randomBytes_length Hsizes).
    split; [by apply slice_prefix|].
    split; [by apply (slice_middle 32 24)|].
    f_equal. rewrite app_assoc. symmetry. apply slice_from_suffix.
    rewrite length_app. lia.
  - intros receiver full sk Hsk. unfold decryptMessage. by rewrite Hsk.
Qed.

(** The public key of a well-formed pair is the generated one. *)
Lemma well_formed_publicKey (Hsign : sign_contract) kp :
  well_formed kp →
  ∃ g, base_decode (secretKey kp) = Ok (nacl.secretKey (nacl_sign_keyPair g).1)
       ∧ data (publicKey kp) = nacl.publicKey (nacl_sign_keyPair g).1.
Proof.
  intros (Hnew & sk & Hsk & g & <-). exists g. split; [done|].
  unfold KeyPairEd25519_new in Hnew. rewrite Hsk, bind_Ok in Hnew.
  rewrite (fromSecretKey_generated Hsign), bind_Ok in Hnew.
  by rewrite <- (f_equal (λ r, match r with
                                | Ok k => data (publicKey k)
                                | Throw _ => [] end) Hnew).
Qed.

(** [fromRandom] returns, and its key pair is well formed. *)
Lemma fromRandom_well_formed
    (Hcodec : codec_roundtrip) (Hsign : sign_contract) g :
  ∃ kp, (KeyPairEd25519_fromRandom g).1 = Ok kp ∧ well_formed kp.
Proof.
  unfold KeyPairEd25519_fromRandom.
  pose proof (fromSecretKey_generated Hsign g) as Hfrom. cbn zeta in Hfrom.
  assert (generated (nacl.secretKey (nacl_sign_keyPair g).1)) as Hgen
    by by exists g.
  destruct (nacl_sign_keyPair g) as [kp g']. cbn [fst snd] in *.
  unfold KeyPairEd25519_new at 1. rewrite Hcodec, bind_Ok, Hfrom, bind_Ok.
  eexists. split; [done|]. split; cbn [secretKey].
  - unfold KeyPairEd25519_new. by rewrite Hcodec, bind_Ok, Hfrom.
  - eexists. by split; [apply Hcodec|].
Qed.

(** C1. For every sender and every well-formed receiver (the sender
    itself included) [encryptMessage] returns an envelope, and the
    receiver's [decryptMessage] returns the plaintext from it. *)
Theorem decrypt_encrypt
    (Hsizes : nacl_sizes) (Hsign : sign_contract) (Hbox : box_contract)
    (sender receiver : KeyPairEd25519) (m : bytes) g :
  well_formed receiver →
  ∃ envelope,
    (encryptMessage sender m (getPublicKey receiver) g).1 = Ok envelope
    ∧ decryptMessage receiver envelope = Ok (Some m).
Proof.
  intros Hwf.
  destruct (well_formed_publicKey Hsign _ Hwf) as (gr & Hsk & Hpk).
  destruct (convert_generated Hbox gr) as (cpk & Hcpk & Hpair).
  pose proof (box_keyPair_pair Hbox g) as Heph.
  pose proof (box_keyPair_publicKey_length Hsizes g) as Hepk.
  pose proof (randomBytes_length Hsizes 24 (nacl_box_keyPair g).2) as Hnonce.
  destruct (box_open_box Hbox _ _ m _ Heph Hpair Hnonce) as (c & Hc & Hopen).
  cbn [nacl.publicKey nacl.secretKey] in Hc, Hopen.
  exists (nacl.publicKey (nacl_box_keyPair g).1
            ++ (nacl_randomBytes 24 (nacl_box_keyPair g).2).1 ++ c).
  split.
  - rewrite encryptMessage_unfold. unfold getPublicKey.
    by rewrite Hpk, Hcpk, Hc.
  - unfold decryptMessage. rewrite Hsk, bind_Ok.
    rewrite slice_prefix by done.
    rewrite (slice_middle 32 24) by done.
    rewrite app_assoc, slice_from_suffix by (rewrite length_app; lia).
    done.
Qed.

(** C2. A key pair that the constructor has returned never throws on
    an input of 56 bytes or more, and so on no envelope that
    [encryptMessage] has returned, whoever it was made for: it returns
    what [nacl.box.open] returns for the three slices and its converted
    secret key. That is [null], or a plaintext whose box, with the
    nonce and the sender key of the input and the converted secret key,
    is the cipher text of the input byte for byte; nothing else is ever
    returned as a plaintext, and an input whose cipher text is the box
    of no message under these keys gets [null]. On a shorter input the
    size check of [nacl.box.open] throws, and [decryptMessage] lets the
    error through. *)
Theorem decryptMessage_failure
    (Hsizes : nacl_sizes) (Hopen : box_open_sizes) (Hsound : box_open_sound)
    s kp :
  KeyPairEd25519_new s = Ok kp →
  ∃ sk, base_decode (secretKey kp) = Ok sk
    ∧ (∀ full : bytes, 56 ≤ length full →
         ∃ r, nacl_box_open (slice_from 56 full) (slice 32 56 full)
                (slice 0 32 full) (convertSecretKey sk) = Ok r
            ∧ decryptMessage kp full = Ok r
            ∧ (∀ m, r = Some m →
                 nacl_box m (slice 32 56 full) (Some (slice 0 32 full))
                   (convertSecretKey sk) = Ok (slice_from 56 full))
            ∧ ((∀ m, nacl_box m (slice 32 56 full) (Some (slice 0 32 full))
                       (convertSecretKey sk) ≠ Ok (slice_from 56 full)) →
               r = None))
    ∧ (∀ this m k g envelope,
         (encryptMessage this m k g).1 = Ok envelope →
         56 ≤ length envelope ∧ returns (decryptMessage kp envelope))
    ∧ (∀ full : bytes, length full < 56 → throws (decryptMessage kp full)).
Proof.
  intros Hkp.
  destruct (KeyPairEd25519_new_decodes _ _ Hkp) as [sk Hsk].
  rewrite <- (KeyPairEd25519_new_secretKey _ _ Hkp) in Hsk.
  assert (∀ full : bytes, 56 ≤ length full →
    returns (nacl_box_open (slice_from 56 full) (slice 32 56 full)
               (slice 0 32 full) (convertSecretKey sk))) as Hreturns.
  { intros full Hlen. apply (box_open_returns Hopen).
    - unfold slice. rewrite length_take, length_drop. lia.
    - apply (convertSecretKey_length Hopen).
    - unfold slice. rewrite length_take, length_drop. lia. }
  assert (∀ full : bytes, decryptMessage kp full
    = nacl_box_open (slice_from 56 full) (slice 32 56 full)
        (slice 0 32 full) (convertSecretKey sk)) as Hopens.
  { intros full. unfold decryptMessage. by rewrite Hsk, bind_Ok. }
  exists sk. split; [done|]. split; [|split].
  - intros full Hlen. destruct (Hreturns full Hlen) as [r Hr].
    exists r. split; [done|]. split; [by rewrite Hopens|]. split.
    + intros m ->. by apply Hsound.
    + intros Hno. destruct r as [m|]; [|done].
      destruct (Hno m). by apply Hsound.
  - intros this m k g envelope Henvelope.
    assert (56 ≤ length envelope) as Hlen.
    { rewrite encryptMessage_unfold in Henvelope.
      destruct (nacl_box m _ _ _) as [cipher|]; [|done].
      rewrite bind_Ok in Henvelope. injection Henvelope as <-.
      rewrite !length_app, (box_keyPair_publicKey_length Hsizes),
        (randomBytes_length Hsizes). lia. }
    split; [done|]. rewrite Hopens. by apply Hreturns.
  - intros full Hlen. rewrite Hopens. apply (box_open_throws Hopen).
    unfold slice. rewrite !length_take, !length_drop. lia.
Qed.

(** C3. A well-formed key pair signs every message, and verifies the
    signature it has made; the key pair that [fromRandom] returns is
    one. *)
Theorem verify_sign (Hsign : sign_contract) :
  (∀ kp m, well_formed kp →
     ∃ sig, sign kp m = Ok sig ∧ verify kp m (signature sig) = Ok true)
  ∧ (codec_roundtrip → ∀ g m,
     ∃ kp sig, (KeyPairEd25519_fromRandom g).1 = Ok kp
       ∧ sign kp m = Ok sig ∧ verify kp m (signature sig) = Ok true).
Proof.
  assert (∀ kp m, well_formed kp →
    ∃ sig, sign kp m = Ok sig ∧ verify kp m (signature sig) = Ok true) as Hwf.
  { intros kp m Hkp.
    destruct (well_formed_publicKey Hsign _ Hkp) as (g & Hsk & Hpk).
    destruct (verify_detached Hsign g m) as (sig & Hsig & Hver).
    exists (mkSignature sig (publicKey kp)). split.
    - unfold sign. by rewrite Hsk, bind_Ok, Hsig.
    - unfold verify. cbn [signature].
      rewrite PublicKey_verify_ED25519, Hpk; [done|].
      by apply (KeyPairEd25519_new_keyType (secretKey kp)), Hkp. }
  split; [done|].
  intros Hcodec g m.
  destruct (fromRandom_well_formed Hcodec Hsign g) as (kp & Hkp & Hgood).
  destruct (Hwf kp m Hgood) as (sig & Hs & Hv). by exists kp, sig.
Qed.

End Envelopes.

(** ** The small model keeps the contracts *)

Section Bytes.

Lemma to_N_byte_of_N n : Byte.to_N (byte_of_N n) = (n mod 256)%N.
Proof.
  unfold byte_of_N.
  destruct (Byte.of_N (n mod 256)) as [b|] eqn:E; cbn.
  - by apply Byte.to_of_N.
  - apply Byte.of_N_None_iff in E.
    pose proof (N.mod_upper_bound n 256). lia.
Qed.

Lemma Z_of_byte_range b : (0 ≤ Z_of_byte b < 256)%Z.
Proof. unfold Z_of_byte. pose proof (Byte.to_N_bounded b). lia. Qed.

Lemma Z_of_byte_of_Z z : Z_of_byte (byte_of_Z z) = (z mod 256)%Z.
Proof.
  unfold Z_of_byte, byte_of_Z. rewrite to_N_byte_of_N.
  pose proof (Z.mod_pos_bound z 256).
  rewrite N.mod_small by lia. lia.
Qed.

Lemma byte_of_Z_of_byte b : byte_of_Z (Z_of_byte b) = b.
Proof.
  unfold byte_of_Z, byte_of_N.
  pose proof (Z_of_byte_range b).
  rewrite Z.mod_small by lia. unfold Z_of_byte. rewrite N2Z.id.
  pose proof (Byte.to_N_bounded b).
  rewrite N.mod_small by lia. by rewrite Byte.of_to_N.
Qed.

Lemma draw_length n (g : entropy) : length (draw n g).1 = n.
Proof. cbn. by rewrite length_map, length_seq. Qed.

End Bytes.

Module toy_facts.
Import toy.

#[local] Arguments point : simpl never.
#[local] Arguments encode_number : simpl never.
#[local] Arguments decode_number : simpl never.
#[local] Arguments checksum : simpl never.
#[local] Arguments tag : simpl never.
#[local] Arguments scalar : simpl never.
#[local] Arguments shared : simpl never.

Lemma checksum_range b : (0 ≤ checksum b < q)%Z.
Proof.
  unfold checksum.
  assert (0 ≤ 7 < q)%Z as Hstart by (unfold q; lia).
  revert Hstart. generalize 7%Z as a.
  induction b as [|x b IH]; intros a Ha; [done|].
  cbn. apply IH. apply Z.mod_pos_bound. unfold q. lia.
Qed.

Lemma length_encode_number n x : length (encode_number n x) = n.
Proof.
  unfold encode_number. rewrite length_take. cbn. rewrite length_replicate. lia.
Qed.

Lemma decode_encode_number n x :
  0 < n → decode_number (encode_number n x) = (x mod q)%Z.
Proof.
  intros Hn. unfold encode_number, decode_number.
  destruct n as [|n]; [lia|]. cbn.
  rewrite Z_of_byte_of_Z.
  pose proof (Z.mod_pos_bound x q). unfold q in *.
  rewrite (Z.mod_small (x mod 251) 256) by lia.
  apply Z.mod_mod. lia.
Qed.

Lemma decode_number_range b : (0 ≤ decode_number b < q)%Z.
Proof.
  unfold decode_number, q. destruct b; [lia|]. apply Z.mod_pos_bound. lia.
Qed.

Lemma decode_point a : decode_number (point a) = (a mod q)%Z.
Proof. apply decode_encode_number. lia. Qed.

Lemma length_point a : length (point a) = 32.
Proof. apply length_encode_number. Qed.

Lemma unmask_mask k b : unmask k (mask k b) = b.
Proof.
  unfold unmask, mask. rewrite Z_of_byte_of_Z.
  unfold byte_of_Z at 1. rewrite Zminus_mod_idemp_l.
  replace (Z_of_byte b + k - k)%Z with (Z_of_byte b) by lia.
  apply byte_of_Z_of_byte.
Qed.

Lemma unmask_mask_all k (m : bytes) : unmask k <$> (mask k <$> m) = m.
Proof.
  induction m as [|b m IH]; [done|]. cbn. by rewrite unmask_mask, IH.
Qed.

(** Both parties compute the same key. *)
Lemma shared_symmetric ska skb :
  shared (point (decode_number skb)) ska = shared (point (decode_number ska)) skb.
Proof.
  unfold shared. rewrite !decode_point.
  rewrite (Z.mod_small (decode_number ska)) by apply decode_number_range.
  rewrite (Z.mod_small (decode_number skb)) by apply decode_number_range.
  by rewrite Z.mul_comm.
Qed.

Lemma sign_keyPair_fst g :
  (sign_keyPair g).1 = sign_keyPair_fromSeed (draw 32 g).1.
Proof. reflexivity. Qed.

Lemma box_keyPair_fst g :
  (box_keyPair g).1
  = nacl.KeyPair (point (decode_number (draw 32 g).1)) (draw 32 g).1.
Proof. reflexivity. Qed.

Local Ltac project :=
  cbn [rng base_encode base_decode nacl_sign_keyPair
       nacl_sign_keyPair_fromSecretKey nacl_sign_detached
       nacl_sign_detached_verify nacl_box_keyPair
       nacl_box_keyPair_fromSecretKey nacl_randomBytes nacl_box nacl_box_open
       convertPublicKey convertSecretKey externals].

Local Ltac name_seed g seed Hseed :=
  pose proof (draw_length 32 g) as Hseed;
  generalize dependent (draw 32 g).1; intros seed Hseed.

Lemma toy_sizes : nacl_sizes.
Proof.
  split.
  - intros g. project. rewrite box_keyPair_fst. apply length_point.
  - intros n g. apply draw_length.
Qed.

Lemma toy_open_sizes : box_open_sizes.
Proof.
  split.
  - intros c n pk sk Hpk Hsk Hn. project. unfold box_open, check_box_sizes.
    rewrite !decide_True by done. cbn zeta.
    destruct (decide (length c < 16)); [by eexists|].
    destruct (decide _); by eexists.
  - intros c n pk sk Hbad. project. unfold box_open, check_box_sizes.
    destruct (decide (length pk = 32)); [|by eexists].
    destruct (decide (length sk = 32)); [|by eexists].
    destruct (decide (length n = 24)); [|by eexists].
    by destruct Hbad.
  - intros sk. project. apply length_encode_number.
Qed.

Lemma toy_signatures : sign_contract.
Proof.
  split.
  - intros g. project. rewrite sign_keyPair_fst. name_seed g seed Hseed.
    unfold sign_keyPair_fromSecretKey, sign_keyPair_fromSeed.
    cbn [nacl.secretKey].
    rewrite decide_True by (rewrite length_app, length_point; lia).
    by rewrite drop_app_length'.
  - intros g m. project. rewrite sign_keyPair_fst. name_seed g seed Hseed.
    unfold sign_detached, sign_keyPair_fromSeed.
    cbn [nacl.secretKey nacl.publicKey].
    rewrite decide_True by (rewrite length_app, length_point; lia).
    eexists. split; [done|].
    unfold sign_detached_verify.
    rewrite decide_True
      by (rewrite length_app, length_point, length_encode_number; lia).
    rewrite decide_True by apply length_point.
    f_equal. apply bool_decide_eq_true.
    rewrite !(take_app_length' seed), !(drop_app_length' seed) by done.
    set (r := checksum (seed ++ m)).
    rewrite !(take_app_length' (point r)) by by rewrite length_point.
    rewrite !(drop_app_length' (point r)) by by rewrite length_point.
    rewrite decode_encode_number, !decode_point by lia.
    pose proof (checksum_range (seed ++ m)). fold r in H.
    pose proof (checksum_range seed). unfold scalar.
    by rewrite (Z.mod_small r), (Z.mod_small (checksum seed)).
Qed.

Lemma box_pair_inv (a : nacl.keyPair) :
  box_pair a →
  length (nacl.secretKey a) = 32
  ∧ nacl.publicKey a = point (decode_number (nacl.secretKey a)).
Proof.
  unfold box_pair. project. unfold box_keyPair_fromSecretKey.
  destruct a as [pk sk]. cbn [nacl.secretKey nacl.publicKey].
  destruct (decide (length sk = 32)); [|done]. by intros [= ->].
Qed.

Lemma toy_boxes : box_contract.
Proof.
  split.
  - intros g. unfold box_pair. project. rewrite box_keyPair_fst.
    name_seed g sk Hsk. unfold box_keyPair_fromSecretKey.
    cbn [nacl.secretKey]. by rewrite decide_True.
  - intros a b m n [Hska Hpka]%box_pair_inv [Hskb Hpkb]%box_pair_inv Hn.
    project. unfold box, box_open, check_box_sizes.
    rewrite Hpka, Hpkb.
    rewrite !decide_True by (done || apply length_point). cbn zeta.
    eexists. split; [done|].
    rewrite (shared_symmetric (nacl.secretKey b)).
    set (k := shared _ _).
    assert (length (tag k n m) = 16) as Htag by apply length_replicate.
    rewrite !decide_True by (done || apply length_point).
    rewrite decide_False by (rewrite length_app; lia).
    rewrite (drop_app_length' (tag k n m)), (take_app_length' (tag k n m))
      by done.
    rewrite unmask_mask_all. by rewrite decide_True.
  - intros g. project. rewrite sign_keyPair_fst. name_seed g seed Hseed.
    unfold curve_publicKey, sign_keyPair_fromSeed.
    cbn [nacl.publicKey nacl.secretKey].
    rewrite decide_True by apply length_point.
    eexists. split; [done|].
    unfold box_pair. project.
    unfold box_keyPair_fromSecretKey, curve_secretKey.
    cbn [nacl.publicKey nacl.secretKey].
    rewrite decide_True by apply length_encode_number.
    rewrite take_app_length' by done.
    rewrite decode_encode_number by lia.
    unfold point at 1. unfold encode_number at 1.
    rewrite Z.mod_mod by (unfold q; lia). done.
Qed.

End toy_facts.

(** ** Base 58 is a codec *)

Module bs58_facts.
Import bs58.

Local Open Scope Z_scope.

Lemma value_snoc base ds d : value base (ds ++ [d]) = value base ds * base + d.
Proof. unfold value. by rewrite fold_left_app. Qed.

Lemma value_from_nonneg base a ds :
  1 ≤ base → 0 ≤ a → Forall (λ d, 0 ≤ d < base) ds → a ≤ value_from base a ds.
Proof.
  intros Hb Ha Hds. revert a Ha.
  induction Hds as [|d ds Hd Hds IH]; intros a Ha; cbn; [lia|].
  etrans; [|apply IH; nia]. nia.
Qed.

Lemma value_from_positive base a ds :
  2 ≤ base → 0 < a → Forall (λ d, 0 ≤ d < base) ds → 0 < value_from base a ds.
Proof.
  intros Hb Ha Hds.
  pose proof (value_from_nonneg base a ds ltac:(lia) ltac:(lia) Hds). lia.
Qed.

(** A canonical sequence of value 0 is empty. *)
Lemma canonical_zero base ds :
  2 ≤ base → canonical base ds → value base ds = 0 → ds = [].
Proof.
  intros Hb [Hds Hhd]. destruct ds as [|d ds]; [done|].
  apply Forall_cons in Hds as [Hd Hds]. cbn in Hhd.
  assert (d ≠ 0) by congruence.
  unfold value. cbn. intros Hv.
  pose proof (value_from_positive base d ds Hb ltac:(lia) Hds) as Hpos.
  unfold value_from in Hpos. rewrite Z.mul_0_l, Z.add_0_l in Hv. lia.
Qed.

Lemma canonical_init base ds d : canonical base (ds ++ [d]) → canonical base ds.
Proof.
  intros [Hds Hhd]. apply Forall_app in Hds as [Hds _]. split; [done|].
  destruct ds; [done|]. exact Hhd.
Qed.

(** With fuel for the size of [n], the digits computed for [n] are the
    canonical sequence of value [n], whichever it is. *)
Lemma digits_from_unique base fuel : 2 ≤ base →
  ∀ n acc ds, 0 ≤ n < 2 ^ Z.of_nat fuel →
    canonical base ds → value base ds = n →
    digits_from fuel base n acc = (ds ++ acc)%list.
Proof.
  intros Hb. induction fuel as [|fuel IH]; intros n acc ds Hn Hds Hv.
  - cbn in *. assert (n = 0) as -> by lia.
    by rewrite (canonical_zero base ds).
  - cbn [digits_from]. destruct (Z.leb_spec n 0) as [H0|Hpos].
    + assert (n = 0) as -> by lia. by rewrite (canonical_zero base ds).
    + destruct ds as [|d ds _] using rev_ind.
      { unfold value in Hv. cbn in Hv. lia. }
      rewrite value_snoc in Hv.
      assert (0 ≤ d < base) as Hd.
      { destruct Hds as [Hds _]. apply Forall_app in Hds as [_ Hds].
        by apply Forall_inv in Hds. }
      assert (0 ≤ value base ds) as Hvds.
      { apply (value_from_nonneg base 0 ds); [lia..|].
        destruct Hds as [Hds _]. by apply Forall_app in Hds as [Hds _]. }
      assert (n / base = value base ds) as ->.
      { symmetry. apply (Z.div_unique n base _ d); lia. }
      assert (n mod base = d) as ->.
      { symmetry. apply (Z.mod_unique n base (value base ds) d); lia. }
      rewrite (IH _ _ ds); [by rewrite <- app_assoc| |by eapply canonical_init|done].
      split; [done|].
      rewrite Nat2Z.inj_succ, Z.pow_succ_r in Hn by lia. nia.
Qed.

(** The fuel that [digits] takes is enough. *)
Lemma digits_fuel n : 0 ≤ n → 0 ≤ n < 2 ^ Z.of_nat (S (Z.to_nat (Z.log2 n))).
Proof.
  intros Hn. split; [done|].
  rewrite Nat2Z.inj_succ, Z2Nat.id by apply Z.log2_nonneg.
  destruct (decide (n = 0)) as [->|]; [done|].
  apply Z.log2_spec. lia.
Qed.

Lemma digits_unique base ds :
  2 ≤ base → canonical base ds → digits base (value base ds) = ds.
Proof.
  intros Hb Hds. unfold digits.
  rewrite (digits_from_unique base _ Hb _ [] ds); [by rewrite app_nil_r| |done..].
  apply digits_fuel. apply (value_from_nonneg base 0 ds); [lia..|apply Hds].
Qed.

(** The digits computed for [n] are canonical and have value [n]. *)
Lemma digits_from_canonical base fuel : 2 ≤ base →
  ∀ n acc, 0 ≤ n < 2 ^ Z.of_nat fuel →
    ∃ ds, digits_from fuel base n acc = (ds ++ acc)%list
          ∧ canonical base ds ∧ value base ds = n.
Proof.
  intros Hb. induction fuel as [|fuel IH]; intros n acc Hn.
  - exists []. cbn in *. repeat split; [by constructor|done|unfold value; cbn; lia].
  - cbn [digits_from]. destruct (Z.leb_spec n 0) as [H0|Hpos].
    + exists []. repeat split; [by constructor|done|unfold value; cbn; lia].
    + pose proof (Z.mod_pos_bound n base) as Hmod.
      pose proof (Z.div_mod n base) as Hdiv.
      assert (0 ≤ n / base) as Hq by (apply Z.div_pos; lia).
      destruct (IH (n / base) (n mod base :: acc)) as (ds & -> & [Hds Hhd] & Hv).
      { split; [done|].
        rewrite Nat2Z.inj_succ, Z.pow_succ_r in Hn by lia. nia. }
      exists (ds ++ [n mod base])%list. split; [by rewrite <- app_assoc|].
      split; [split|].
      * apply Forall_app. split; [done|]. apply Forall_singleton. lia.
      * destruct ds as [|d ds]; [|exact Hhd].
        cbn. unfold value in Hv. cbn in Hv. intros [= E]. lia.
      * rewrite value_snoc, Hv. lia.
Qed.

Lemma digits_canonical base n :
  2 ≤ base → 0 ≤ n → canonical base (digits base n) ∧ value base (digits base n) = n.
Proof.
  intros Hb Hn. unfold digits.
  destruct (digits_from_canonical base _ Hb n [] (digits_fuel n Hn))
    as (ds & -> & Hds & Hv).
  by rewrite app_nil_r.
Qed.

(** Leading zero digits do not change the value. *)
Lemma value_leading base z ds :
  value base (replicate z 0 ++ ds) = value base ds.
Proof.
  unfold value. rewrite fold_left_app. f_equal.
  induction z as [|z IH]; [done|]. cbn. exact IH.
Qed.

Lemma leading_replicate {A} (p : A → bool) z x l :
  p x = true → head (p <$> l) ≠ Some true →
  leading p (replicate z x ++ l) = z.
Proof.
  intros Hx Hl. induction z as [|z IH]; cbn.
  - destruct l as [|y l]; [done|]. cbn in *. destruct (p y); congruence.
  - by rewrite Hx, IH.
Qed.

(** A list is its leaders followed by the rest. *)
Lemma leading_split {A} (p : A → bool) x l :
  (∀ y, p y = true → y = x) →
  l = (replicate (leading p l) x ++ drop (leading p l) l)%list
  ∧ head (p <$> drop (leading p l) l) ≠ Some true.
Proof.
  intros Hp. induction l as [|y l [IH1 IH2]]; [done|].
  cbn. destruct (p y) eqn:Hy; cbn.
  - rewrite (Hp y Hy) at 1. split; [by f_equal|done].
  - split; [done|]. rewrite Hy. done.
Qed.

Lemma is_zero_inv b : is_zero b = true → b = "000"%byte.
Proof.
  unfold is_zero. intros Hb%Z.eqb_eq.
  by rewrite <- (byte_of_Z_of_byte b), Hb.
Qed.

Lemma digit_of_char_of_digit d :
  0 ≤ d < 58 → digit_of_char (char_of_digit d) = Some d.
Proof.
  intros Hd.
  assert (∃ n, d = Z.of_nat n ∧ (n < 58)%nat) as (n & -> & Hn)
    by (exists (Z.to_nat d); lia).
  do 58 (destruct n as [|n]; [reflexivity|]). lia.
Qed.

Lemma digits_of_chars ds :
  Forall (λ d, 0 ≤ d < 58) ds →
  mapM digit_of_char (char_of_digit <$> ds) = Some ds.
Proof.
  intros Hds. apply mapM_Some. induction Hds as [|d ds Hd Hds IH]; cbn.
  - constructor.
  - constructor; [by apply digit_of_char_of_digit|done].
Qed.

(** Decoding inverts encoding. *)
Lemma decode_encode b : decode (encode b) = Ok b.
Proof.
  unfold decode, encode.
  set (z := leading is_zero b).
  set (n := value 256 (Z_of_byte <$> b)).
  destruct (leading_split is_zero "000"%byte b is_zero_inv) as [Hb Hrest].
  fold z in Hb, Hrest.
  assert (Forall (λ d, 0 ≤ d < 256) (Z_of_byte <$> drop z b)) as Hrange.
  { apply Forall_fmap, Forall_forall. intros x _. apply Z_of_byte_range. }
  assert (canonical 256 (Z_of_byte <$> drop z b)) as Hcanon.
  { split; [done|]. destruct (drop z b) as [|x r]; [done|].
    cbn in *. unfold is_zero in Hrest. intros [= E].
    rewrite E in Hrest. by apply Hrest. }
  assert (n = value 256 (Z_of_byte <$> drop z b)) as Hn.
  { unfold n. rewrite Hb at 1. rewrite fmap_app, fmap_replicate.
    change (Z_of_byte "000") with 0. apply value_leading. }
  assert (0 ≤ n) as Hn0.
  { rewrite Hn. apply (value_from_nonneg 256 0); [lia..|done]. }
  destruct (digits_canonical 58 n) as [[Hds Hhd] Hv]; [lia..|].
  rewrite list_ascii_of_string_of_list_ascii.
  rewrite digits_of_chars.
  2:{ apply Forall_app. split; [|done].
      apply Forall_replicate. lia. }
  rewrite leading_replicate; [|done|].
  2:{ destruct (digits 58 n) as [|d ds]; [done|]. cbn in *.
      unfold is_one. destruct (Z.eqb_spec d 0); congruence. }
  rewrite value_leading, Hv, Hn, digits_unique by (lia || done).
  f_equal. rewrite Hb at 2. rewrite fmap_app, fmap_replicate. f_equal.
  rewrite <- list_fmap_compose.
  rewrite <- (list_fmap_id (drop z b)) at 2.
  apply list_fmap_ext. intros _ x _. apply byte_of_Z_of_byte.
Qed.

(** A string with a colon does not decode. *)
Lemma decode_colon s b : decode s = Ok b → occurrences ":" s = 0%nat.
Proof.
  unfold decode.
  destruct (mapM digit_of_char (list_ascii_of_string s)) as [ds|] eqn:E; [|done].
  intros _. apply mapM_Some in E. revert ds E.
  induction s as [|c s IH]; intros ds E; [done|].
  cbn in E. apply Forall2_cons_inv_l in E as (d & ds' & Hc & Hs & ->).
  cbn. destruct (Ascii.eqb_spec c ":") as [->|_]; [done|].
  by rewrite (IH ds').
Qed.

End bs58_facts.

(** ** The sizes of tweetnacl *)

Module tweetnacl_facts.
Import tweetnacl.

Lemma length_le_bytes n x : length (le_bytes n x) = n.
Proof.
  revert x. induction n as [|n IH]; intros x; [done|].
  cbn [le_bytes length]. by rewrite IH.
Qed.

Lemma length_crypto_scalarmult n p : length (crypto_scalarmult n p) = 32.
Proof.
  unfold crypto_scalarmult.
  destruct (fold_left _ _ _) as [[[a b] c] d].
  apply length_le_bytes.
Qed.

Lemma tweetnacl_sizes : nacl_sizes (H := externals).
Proof.
  split.
  - intros g.
    change (length (crypto_scalarmult (draw 32 g).1 _9) = 32).
    apply length_crypto_scalarmult.
  - intros n g. apply draw_length.
Qed.

Lemma tweetnacl_open_sizes : box_open_sizes (H := externals).
Proof.
  split.
  - intros c n pk sk Hpk Hsk Hn.
    change (returns (box_open c n pk sk)). unfold box_open, check_lengths.
    rewrite !decide_True by done. by eexists.
  - intros c n pk sk Hbad.
    change (throws (box_open c n pk sk)). unfold box_open, check_lengths.
    destruct (decide (length pk = 32)); [|by eexists].
    destruct (decide (length sk = 32)); [|by eexists].
    destruct (decide (length n = 24)); [|by eexists].
    by destruct Hbad.
  - intros sk. apply length_le_bytes.
Qed.

End tweetnacl_facts.

(** ** Shared arrays *)

Section Ownership.
Context `{Externals}.
Import aliasing.

Lemma contents_store_other k a i v (h : gmap loc bytes) :
  object_data k ≠ a → contents k (store a i v h) = contents k h.
Proof.
  intros Hne. unfold contents, store. by rewrite lookup_alter_ne.
Qed.

(** C9. A key pair is made from a string and holds its public key in an
    array of its own: no write to an array that existed before the
    construction changes the key.  A public key made from raw bytes
    wraps the array it is given: its data are whatever that array holds
    when they are read. *)
Theorem construction_ownership :
  (∀ s (h h' : gmap loc bytes) kp,
     KeyPairEd25519_construct s h = Ok (kp, h') →
     object_secretKey kp = s
     ∧ (∃ k, KeyPairEd25519_new s = Ok k
             ∧ contents (object_publicKey kp) h' = Some (publicKey k))
     ∧ ∀ a i v, a ∈ dom h →
         contents (object_publicKey kp) (store a i v h')
         = contents (object_publicKey kp) h')
  ∧ (∀ t a (h : gmap loc bytes),
     contents (PublicKey_construct t a) h = mkPublicKey t <$> h !! a).
Proof.
  split; [|done].
  intros s h h' kp. unfold KeyPairEd25519_construct, KeyPairEd25519_new.
  destruct (base_decode s) as [sk|]; [|done]. rewrite !bind_Ok.
  destruct (nacl_sign_keyPair_fromSecretKey sk) as [pair|]; [|done].
  rewrite !bind_Ok. unfold alloc. intros [= <- <-]. cbn.
  split; [done|]. split.
  - eexists. split; [done|]. unfold contents. cbn.
    by rewrite lookup_insert_eq.
  - intros a i v Ha. apply contents_store_other. cbn.
    intros <-. by apply (is_fresh (dom h)).
Qed.

End Ownership.

(** ** The tests of the repository *)

Section Vectors.
Import vectors.
#[local] Existing Instance tweetnacl.externals.

(** [test/key_pair.test.js], with tweetnacl. *)
Example test_sign_and_verify :
  (kp ← KeyPairEd25519_new secret_B;
   s ← sign kp message;
   p ← PublicKey_toString (publicKey kp);
   Ok (p, base_encode (signature s)))
  = Ok (public_B, signature_B).
Proof. vm_compute. reflexivity. Qed.

Example test_sign_and_verify_with_random :
  (kp ← (KeyPairEd25519_fromRandom source).1;
   s ← sign kp message;
   verify kp message (signature s)) = Ok true.
Proof. vm_compute. reflexivity. Qed.

Example test_sign_and_verify_with_public_key :
  (kp ← KeyPairEd25519_new secret_A;
   s ← sign kp message;
   k ← PublicKey_from (inl public_A);
   PublicKey_verify k message (signature s)) = Ok true.
Proof. vm_compute. reflexivity. Qed.

Example test_from_secret :
  (kp ← KeyPairEd25519_new secret_A; PublicKey_toString (publicKey kp))
  = Ok public_A.
Proof. vm_compute. reflexivity. Qed.

Example test_convert_to_string :
  (kp ← (KeyPairEd25519_fromRandom source).1;
   kp' ← KeyPair_fromString (toString kp);
   Ok (bool_decide (secretKey kp' = secretKey kp))) = Ok true
  ∧ (kp ← KeyPair_fromString canonical_key; Ok (toString kp))
    = Ok canonical_key.
Proof. split; vm_compute; reflexivity. Qed.

Example test_encrypt_and_decrypt_message :
  (sender ← KeyPairEd25519_new secret_A;
   receiver ← KeyPairEd25519_new secret_B;
   c ← (encryptMessage sender plaintext (publicKey receiver) source).1;
   decryptMessage receiver c) = Ok (Some plaintext).
Proof. vm_compute. reflexivity. Qed.

Example test_fail_to_decrypt_message :
  (sender ← KeyPairEd25519_new secret_A;
   receiver ← KeyPairEd25519_new secret_B;
   c ← (encryptMessage sender plaintext (publicKey receiver) source).1;
   decryptMessage sender c) = Ok None.
Proof. vm_compute. reflexivity. Qed.

Example test_send_to_self :
  (sender ← KeyPairEd25519_new secret_A;
   c ← (encryptMessage sender plaintext (publicKey sender) source).1;
   decryptMessage sender c) = Ok (Some plaintext).
Proof. vm_compute. reflexivity. Qed.

(** A tag in upper case is accepted, and printed in lower case. *)
Example fromString_upper_case_tag :
  (kp ← KeyPair_fromString ("ED25519:" +:+ secret_A); Ok (toString kp))
  = Ok ("ed25519:" +:+ secret_A).
Proof. vm_compute. reflexivity. Qed.

(** The key pairs of the tests are well formed. *)
Example test_keys_well_formed : well_formed pair_A.
Proof.
  split; [vm_compute; reflexivity|].
  exists (returned [] (base_decode secret_A)).
  split; [vm_compute; reflexivity|].
  exists (λ i, nth i (returned [] (base_decode secret_A)) "000"%byte).
  vm_compute. reflexivity.
Qed.

(** [secret_mixed] is the seed of [secret_A] before the public key of
    [secret_B], and a key pair is made from it all the same, with the
    public key of [secret_B]. *)
Example secret_mixed_halves :
  (a ← base_decode secret_A;
   b ← base_decode secret_B;
   Ok (base_encode (take 32 a ++ drop 32 b))) = Ok secret_mixed
  ∧ (kp ← KeyPairEd25519_new secret_mixed;
     PublicKey_toString (publicKey kp)) = Ok public_B.
Proof. split; vm_compute; reflexivity. Qed.

(** C4. The bytes of a signature depend on the secret key and on the
    message only; and with tweetnacl the key pair made from the secret
    key of the test has the public key of the test and signs the
    SHA-256 digest of ["message"] with the signature of the test. *)
Theorem sign_deterministic :
  (∀ (E : Externals) (kp kp' : KeyPairEd25519) (m : bytes),
     secretKey kp = secretKey kp' →
     (sign kp m ≫= λ s, Ok (signature s))
     = (sign kp' m ≫= λ s, Ok (signature s)))
  ∧ (kp ← KeyPairEd25519_new secret_B;
     s ← sign kp message;
     p ← PublicKey_toString (publicKey kp);
     Ok (p, base_encode (signature s)))
    = Ok (public_B, signature_B).
Proof.
  split.
  - intros E kp kp' m Hsk. unfold sign. rewrite Hsk.
    destruct (base_decode (secretKey kp')) as [sk|]; [|done].
    rewrite !bind_Ok. by destruct (nacl_sign_detached m sk).
  - vm_compute. reflexivity.
Qed.

Lemma sign_deterministic_witness :
  (sign pair_A message ≫= λ s, Ok (signature s))
  = (sign (mkKeyPairEd25519 (mkPublicKey ED25519 []) secret_A) message
     ≫= λ s, Ok (signature s)).
Proof. apply (proj1 sign_deterministic). reflexivity. Defined.

(** *** The properties at the test data *)

Lemma decrypt_encrypt_witness :
  ∃ envelope,
    (encryptMessage (H := toy.externals) toy_pair plaintext
       (getPublicKey toy_pair) source).1 = Ok envelope
    ∧ decryptMessage (H := toy.externals) toy_pair envelope
      = Ok (Some plaintext).
Proof.
  apply (decrypt_encrypt (H := toy.externals)
           toy_facts.toy_sizes toy_facts.toy_signatures toy_facts.toy_boxes).
  split; [vm_compute; reflexivity|].
  exists (nacl.secretKey (toy.sign_keyPair source).1).
  split; [vm_compute; reflexivity|].
  exists source. reflexivity.
Defined.

Lemma verify_sign_witness :
  ∃ kp sig,
    (KeyPairEd25519_fromRandom (H := toy.externals) source).1 = Ok kp
    ∧ sign (H := toy.externals) kp message = Ok sig
    ∧ verify (H := toy.externals) kp message (signature sig) = Ok true.
Proof.
  apply (proj2 (verify_sign (H := toy.externals) toy_facts.toy_signatures)).
  exact bs58_facts.decode_encode.
Defined.

Lemma fromString_toString_witness :
  toString pair_canonical = canonical_key.
Proof.
  apply (proj2 (fromString_toString (H := tweetnacl.externals)
                  bs58_facts.decode_colon)).
  vm_compute. reflexivity.
Defined.

Lemma fromString_by_colons_witness :
  PublicKey_fromString "a:b:c" = Throw invalid_format
  ∧ KeyPair_fromString "a:b:c" = Throw invalid_format.
Proof.
  apply (proj2 (proj2 (fromString_by_colons "a:b:c"))). cbn. lia.
Defined.

Lemma toString_canonical_witness :
  (PublicKey_toString (getPublicKey pair_A)
   = Ok ("ed25519:" +:+ base_encode (data (getPublicKey pair_A)))
   ∧ PublicKey_toString (getPublicKey pair_A)
     ≠ Ok "EWrekY1deMND7N3Q7Dixxj12wD7AVjFRt2H9q21QHUSW")
  ∧ toString pair_A = "ed25519:" +:+ secret_A ∧ toString pair_A ≠ secret_A.
Proof.
  split.
  - apply (proj1 (proj2 (proj2 (proj2 (proj2 toString_canonical)))
                    "EWrekY1deMND7N3Q7Dixxj12wD7AVjFRt2H9q21QHUSW" eq_refl)).
    vm_compute. reflexivity.
  - apply (proj2 (proj2 (proj2 (proj2 toString_canonical))) secret_A).
    + reflexivity.
    + vm_compute. reflexivity.
Defined.

Lemma envelope_layout_witness :
  slice 0 32 envelope_A = nacl.publicKey (nacl_box_keyPair source).1
  ∧ slice 32 56 envelope_A
    = (nacl_randomBytes 24 (nacl_box_keyPair source).2).1
  ∧ nacl_box plaintext (nacl_randomBytes 24 (nacl_box_keyPair source).2).1
      (convertPublicKey (data (getPublicKey pair_A)))
      (nacl.secretKey (nacl_box_keyPair source).1)
    = Ok (slice_from 56 envelope_A).
Proof.
  apply (proj1 (envelope_layout tweetnacl_facts.tweetnacl_sizes
                  pair_A plaintext (getPublicKey pair_A) source)).
  vm_compute. reflexivity.
Defined.

Lemma construction_ownership_witness :
  aliasing.contents (aliasing.object_publicKey object_A.1)
    (aliasing.store 1%positive 0 "255"%byte object_A.2)
  = aliasing.contents (aliasing.object_publicKey object_A.1) object_A.2.
Proof.
  apply (proj1 construction_ownership secret_A heap_1 object_A.2 object_A.1).
  - vm_compute. reflexivity.
  - vm_compute. reflexivity.
Defined.

Lemma PublicKey_fromString_any_length_witness :
  PublicKey_fromString "ed25519:11Ldp"
  = Ok (mkPublicKey ED25519 (byte_of_Z <$> [0; 0; 1; 2; 3]%Z)).
Proof.
  apply PublicKey_fromString_any_length.
  - vm_compute. reflexivity.
  - right. exists "ed25519", "11Ldp". split; [reflexivity|].
    split; [|reflexivity]. apply toLowerCase_ed25519. reflexivity.
Defined.

(** *** Where the specification says more than the code does *)

(** C1. The receiver made from [secret_mixed] cannot open what was
    encrypted for its own public key. *)
Lemma decrypt_encrypt_mixed :
  (sender ← KeyPairEd25519_new secret_A;
   receiver ← KeyPairEd25519_new secret_mixed;
   c ← (encryptMessage sender plaintext (getPublicKey receiver) source).1;
   decryptMessage receiver c) = Ok None.
Proof. vm_compute. reflexivity. Qed.

(** C2. On an envelope cut to 40 bytes [decryptMessage] throws. And
    the envelope that carries [double_plaintext] to the key pair of
    [secret_A] is opened by the key pair of [secret_B] as well, which
    reads another plaintext in it. *)
Lemma decryptMessage_not_null :
  (sender ← KeyPairEd25519_new secret_A;
   receiver ← KeyPairEd25519_new secret_B;
   c ← (encryptMessage sender plaintext (getPublicKey receiver) source).1;
   decryptMessage receiver (take 40 c)) = Throw "bad nonce size"
  ∧ (receiver ← KeyPairEd25519_new secret_A;
     other ← KeyPairEd25519_new secret_B;
     c ← (encryptMessage receiver double_plaintext
            (getPublicKey receiver) source).1;
     opened ← decryptMessage receiver c;
     read ← decryptMessage other c;
     Ok (opened, read))
    = Ok (Some double_plaintext, Some double_opened)
  ∧ getPublicKey pair_B ≠ getPublicKey pair_A
  ∧ double_opened ≠ double_plaintext.
Proof.
  split; [vm_compute; reflexivity|].
  split; [vm_compute; reflexivity|].
  split; vm_compute; discriminate.
Qed.

(** C7. A public key that holds the number 1 as its key type does not
    print. *)
Lemma PublicKey_toString_key_type_1 :
  PublicKey_toString (mkPublicKey 1%Z (data (getPublicKey pair_A)))
  = Throw "Unknown key type 1".
Proof. vm_compute. reflexivity. Qed.

(** C3. The key pair made from [secret_mixed] does not verify the
    signature it has made. *)
Lemma verify_sign_mixed :
  (kp ← KeyPairEd25519_new secret_mixed;
   s ← sign kp message;
   verify kp message (signature s)) = Ok false.
Proof. vm_compute. reflexivity. Qed.

(** C9. A write to the array that a public key was made from changes
    the data of the key. *)
Lemma PublicKey_construct_shares :
  aliasing.contents (aliasing.PublicKey_construct ED25519 1%positive) heap_1
  = Some (mkPublicKey ED25519 plaintext)
  ∧ aliasing.contents (aliasing.PublicKey_construct ED25519 1%positive)
      (aliasing.store 1%positive 0 "255"%byte heap_1)
    = Some (mkPublicKey ED25519 (byte_of_Z <$> [255; 2; 3; 4; 5; 6]%Z)).
Proof. split; vm_compute; reflexivity. Qed.

(** C10. An input with one colon whose encoded part decodes is refused
    when its tag is not a curve. *)
Lemma PublicKey_fromString_unknown_tag :
  occurrences ":" "rsa:11Ldp" = 1
  ∧ base_decode (encoded_part "rsa:11Ldp")
    = Ok (byte_of_Z <$> [0; 0; 1; 2; 3]%Z)
  ∧ PublicKey_fromString "rsa:11Ldp" = Throw "Unknown key type rsa".
Proof. repeat split; vm_compute; reflexivity. Qed.

End Vectors.

(** ** The sizes of tweetnacl, continued *)

Module tweetnacl_lengths.
Import tweetnacl.

Lemma length_pack p : length (pack p) = 32.
Proof.
  unfold pack. destruct p as [[[p0 p1] p2] p3].
  apply tweetnacl_facts.length_le_bytes.
Qed.

Lemma length_crypto_sign m sk : length (crypto_sign m sk) = 64.
Proof.
  unfold crypto_sign. cbv zeta.
  by rewrite length_app, length_pack, tweetnacl_facts.length_le_bytes.
Qed.

Lemma length_crypto_sign_keypair seed :
  length seed = 32 →
  nacl.secretKey (crypto_sign_keypair seed)
  = seed ++ nacl.publicKey (crypto_sign_keypair seed)
  ∧ length (nacl.publicKey (crypto_sign_keypair seed)) = 32.
Proof.
  intros Hseed. unfold crypto_sign_keypair. cbv zeta.
  cbn [nacl.secretKey nacl.publicKey].
  rewrite firstn_all2 by lia. split; [done|]. apply length_pack.
Qed.

Lemma tweetnacl_sign_sizes : sign_sizes (H := externals).
Proof.
  split.
  - intros sk Hsk.
    change (∃ kp, sign_keyPair_fromSecretKey sk = Ok kp
                  ∧ length (nacl.publicKey kp) = 32).
    unfold sign_keyPair_fromSecretKey. rewrite decide_True by done.
    eexists. split; [done|]. cbn [nacl.publicKey]. unfold slice.
    rewrite length_take, length_drop. lia.
  - intros sk Hsk. change (throws (sign_keyPair_fromSecretKey sk)).
    unfold sign_keyPair_fromSecretKey. rewrite decide_False by done.
    by eexists.
  - intros m sk Hsk.
    change (∃ sig, sign_detached m sk = Ok sig ∧ length sig = 64).
    unfold sign_detached. rewrite decide_True by done.
    eexists. split; [done|]. apply length_crypto_sign.
  - intros m sig pk Hsig Hpk.
    change (returns (sign_detached_verify m sig pk)).
    unfold sign_detached_verify. rewrite !decide_True by done. by eexists.
  - intros m sig pk Hsig.
    change (throws (sign_detached_verify m sig pk)).
    unfold sign_detached_verify. rewrite decide_False by done. by eexists.
Qed.

Lemma tweetnacl_recovered : keyPair_recovered (H := externals).
Proof.
  intros g.
  change (sign_keyPair_fromSecretKey
            (nacl.secretKey (crypto_sign_keypair (draw 32 g).1))
          = Ok (crypto_sign_keypair (draw 32 g).1)).
  pose proof (draw_length 32 g) as Hseed.
  generalize dependent (draw 32 g).1. intros seed Hseed.
  destruct (length_crypto_sign_keypair seed Hseed) as [Hsk Hpk].
  destruct (crypto_sign_keypair seed) as [pk sk].
  cbn [nacl.secretKey nacl.publicKey] in *. subst sk.
  unfold sign_keyPair_fromSecretKey.
  rewrite decide_True by (rewrite length_app; lia).
  unfold slice. rewrite drop_app_length' by done.
  by rewrite firstn_all2 by lia.
Qed.

Lemma length_quarter a b c d x : length (quarter a b c d x) = length x.
Proof. unfold quarter. cbv zeta. by rewrite !length_insert. Qed.

Lemma length_double_round x : length (double_round x) = length x.
Proof. unfold double_round. cbv zeta. by rewrite !length_quarter. Qed.

Lemma length_rounds n x : length (Nat.iter n double_round x) = length x.
Proof.
  induction n as [|n IH]; [done|]. cbn [Nat.iter nat_rect].
  by rewrite length_double_round.
Qed.

Lemma length_concat_st32 (l : list Z) :
  length (concat (st32 <$> l)) = 4 * length l.
Proof.
  induction l as [|x l IH]; [done|].
  cbn [fmap list_fmap concat]. rewrite length_app, IH.
  unfold st32. rewrite tweetnacl_facts.length_le_bytes. cbn [length]. lia.
Qed.

Lemma length_core inp k c : length (core inp k c false) = 64.
Proof.
  unfold core. cbv zeta.
  rewrite length_concat_st32, length_zip_with, length_rounds. done.
Qed.

Lemma length_salsa20_blocks n k start N :
  length (concat ((λ i, core (n ++ le_bytes 8 (Z.of_nat i)) k sigma false)
                  <$> seq start N)) = 64 * N.
Proof.
  revert start. induction N as [|N IH]; intros start; [done|].
  cbn [seq fmap list_fmap concat]. rewrite length_app, length_core.
  change (list_fmap _ _ ?f ?l) with (f <$> l). rewrite IH. lia.
Qed.

Lemma length_crypto_stream b n k : length (crypto_stream b n k) = b.
Proof.
  unfold crypto_stream, crypto_stream_salsa20. cbv zeta.
  rewrite length_take, length_salsa20_blocks.
  pose proof (Nat.div_mod (b + 63) 64).
  pose proof (Nat.mod_upper_bound (b + 63) 64). lia.
Qed.

Lemma length_crypto_onetimeauth m k : length (crypto_onetimeauth m k) = 16.
Proof.
  unfold crypto_onetimeauth. cbv zeta. apply tweetnacl_facts.length_le_bytes.
Qed.

Lemma length_secretbox m n k : length (secretbox m n k) = length m + 16.
Proof.
  unfold secretbox. cbv zeta.
  rewrite length_app, length_crypto_onetimeauth.
  unfold xor_bytes. rewrite length_zip_with, length_drop, length_crypto_stream.
  lia.
Qed.

Lemma length_secretbox_open box n k m :
  secretbox_open box n k = Some m → length box = length m + 16.
Proof.
  unfold secretbox_open.
  destruct (decide (length box < 16)) as [|Hbox]; [done|]. cbv zeta.
  destruct (decide _); [|done]. intros [= <-].
  unfold xor_bytes. rewrite length_zip_with, !length_drop, length_crypto_stream.
  lia.
Qed.

Lemma tweetnacl_box_sizes : box_sizes (H := externals).
Proof.
  split.
  - intros m n pk sk Hpk Hsk Hn.
    change (∃ c, box m n (Some pk) sk = Ok c ∧ length c = length m + 16).
    unfold box, check_lengths. rewrite !decide_True by done.
    eexists. split; [done|]. apply length_secretbox.
  - intros m n sk. change (throws (box m n None sk)). by eexists.
  - intros g. apply draw_length.
  - intros pk cpk.
    change (ed_convertPublicKey pk = Some cpk → length cpk = 32).
    unfold ed_convertPublicKey.
    destruct (decide (length pk < 29)) as [_|_].
    { by intros [= <-]. }
    destruct (unpackneg pk) as [[[[x y] z] t]|]; [|done].
    intros [= <-]. apply tweetnacl_facts.length_le_bytes.
  - intros c n pk sk Hc Hpk Hsk Hn.
    change (box_open c n pk sk = Ok None).
    unfold box_open, check_lengths. rewrite !decide_True by done.
    unfold secretbox_open. by rewrite decide_True.
  - intros c n pk sk m.
    change (box_open c n pk sk = Ok (Some m) → length c = length m + 16).
    unfold box_open, check_lengths.
    destruct (decide (length pk = 32)); [|done].
    destruct (decide (length sk = 32)); [|done].
    destruct (decide (length n = 24)); [|done].
    intros [= Hopen]. by apply length_secretbox_open in Hopen.
Qed.

Lemma lxor_byte_range a b :
  (0 ≤ a < 256 → 0 ≤ b < 256 → Z.lxor a b mod 256 = Z.lxor a b)%Z.
Proof.
  intros Ha Hb.
  rewrite <- (Z.mod_small a 256), <- (Z.mod_small b 256) by lia.
  change 256%Z with (2 ^ 8)%Z. rewrite <- !Z.land_ones by lia.
  apply Z.bits_inj'. intros n Hn.
  rewrite !Z.land_spec, !Z.lxor_spec, !Z.land_spec.
  by destruct (Z.testbit a n), (Z.testbit b n), (Z.testbit (Z.ones 8) n).
Qed.

Lemma xor_byte_cancel x y :
  byte_of_Z
    (Z.lxor (Z_of_byte (byte_of_Z (Z.lxor (Z_of_byte x) (Z_of_byte y))))
       (Z_of_byte y)) = x.
Proof.
  rewrite Z_of_byte_of_Z, lxor_byte_range by apply Z_of_byte_range.
  rewrite Z.lxor_assoc, Z.lxor_nilpotent, Z.lxor_0_r.
  apply byte_of_Z_of_byte.
Qed.

Lemma xor_bytes_cancel a b :
  length a ≤ length b → xor_bytes (xor_bytes a b) b = a.
Proof.
  revert b. induction a as [|x a IH]; intros [|y b] Hlen; cbn in *;
    [done|done|lia|].
  f_equal; [apply xor_byte_cancel|apply IH; lia].
Qed.

(** The box that [secretbox_open] has opened is the [secretbox] of the
    message it returns. *)
Lemma secretbox_open_sound c n k m :
  secretbox_open c n k = Some m → secretbox m n k = c.
Proof.
  unfold secretbox_open.
  destruct (decide (length c < 16)) as [|Hc]; [done|]. cbv zeta.
  destruct (decide _) as [Htag|]; [|done]. intros Hm.
  assert (m = xor_bytes (drop 16 c)
                (drop 32 (crypto_stream (32 + (length c - 16)) n k))) as ->
    by congruence.
  clear Hm. unfold secretbox. cbv zeta.
  assert (length (xor_bytes (drop 16 c)
                    (drop 32 (crypto_stream (32 + (length c - 16)) n k)))
          = length c - 16) as ->.
  { unfold xor_bytes.
    rewrite length_zip_with, !length_drop, length_crypto_stream. lia. }
  rewrite xor_bytes_cancel, Htag, take_drop; [done|].
  rewrite !length_drop, length_crypto_stream. lia.
Qed.

Lemma tweetnacl_open_sound : box_open_sound (H := externals).
Proof.
  intros c n pk sk m.
  change (box_open c n pk sk = Ok (Some m) → box m n (Some pk) sk = Ok c).
  unfold box_open, box, check_lengths.
  destruct (decide (length pk = 32)); [|done].
  destruct (decide (length sk = 32)); [|done].
  destruct (decide (length n = 24)); [|done].
  intros [= Hm]. by rewrite (secretbox_open_sound _ _ _ _ Hm).
Qed.

End tweetnacl_lengths.

(** ** More on parsing and printing *)

Section MoreParsing.
Context `{Externals}.

Lemma spelling_no_colon t : t ∈ ed25519_spellings → occurrences ":" t = 0.
Proof.
  unfold ed25519_spellings. intros Ht.
  repeat (apply elem_of_cons in Ht as [->|Ht]; [reflexivity|]).
  by apply elem_of_nil in Ht.
Qed.

Lemma PublicKey_parse_printed
    (Hround : codec_roundtrip) (Halphabet : codec_alphabet) k s :
  PublicKey_toString k = Ok s → PublicKey_fromString s = Ok k.
Proof.
  destruct (decide (keyType k = ED25519)) as [Hk|Hk];
    [|by rewrite PublicKey_toString_unknown].
  rewrite PublicKey_toString_ED25519 by done. intros [= <-].
  change ("ed25519:" +:+ ?x) with ("ed25519" +:+ ":" +:+ x).
  rewrite PublicKey_fromString_tagged;
    [|reflexivity|by apply (Halphabet _ (data k)), Hround].
  rewrite Hround. destruct k as [t d]. cbn in Hk. by rewrite Hk.
Qed.

Lemma tagged_as_bare s t :
  occurrences ":" s = 0 → t ∈ ed25519_spellings →
  PublicKey_fromString (t +:+ ":" +:+ s) = PublicKey_fromString s
  ∧ KeyPair_fromString (t +:+ ":" +:+ s) = KeyPair_fromString s.
Proof.
  intros Hs Ht. pose proof (spelling_no_colon t Ht) as Ht0.
  rewrite PublicKey_fromString_tagged, KeyPair_fromString_tagged by done.
  rewrite PublicKey_fromString_bare, KeyPair_fromString_bare by done.
  by rewrite str_to_key_type_known, toUpperCase_known.
Qed.

(** The three shapes an input can have. *)
Lemma colons_cases s :
  occurrences ":" s = 0
  ∨ (∃ t e, s = t +:+ ":" +:+ e
            ∧ occurrences ":" t = 0 ∧ occurrences ":" e = 0)
  ∨ 2 ≤ occurrences ":" s.
Proof.
  destruct (occurrences ":" s) as [|[|n]] eqn:Hn; [by left| |right; right; lia].
  right; left. destruct (one_occurrence _ _ Hn) as (t & e & -> & Ht & He).
  by exists t, e.
Qed.

(** X1. With a codec that decodes what it encodes and has no colon in
    its alphabet: a public key of type ED25519 prints, every public key
    that prints is parsed back from what it prints, so that
    [PublicKey.from] gives the same key for the key and for its printed
    form, and two keys that print the same string are the same key. *)
Theorem PublicKey_print_parse
    (Hround : codec_roundtrip) (Halphabet : codec_alphabet) :
  (∀ k, keyType k = ED25519 →
     ∃ s, PublicKey_toString k = Ok s
          ∧ PublicKey_fromString s = Ok k
          ∧ PublicKey_from (inl s) = PublicKey_from (inr k))
  ∧ (∀ k s, PublicKey_toString k = Ok s →
       PublicKey_fromString s = Ok k
       ∧ PublicKey_from (inl s) = PublicKey_from (inr k))
  ∧ (∀ k k' s, PublicKey_toString k = Ok s → PublicKey_toString k' = Ok s →
       k = k').
Proof.
  pose proof (PublicKey_parse_printed Hround Halphabet) as Hparse.
  split; [|split].
  - intros k Hk. eexists. split; [by apply PublicKey_toString_ED25519|].
    assert (PublicKey_fromString ("ed25519:" +:+ base_encode (data k)) = Ok k)
      as Hback by by apply Hparse, PublicKey_toString_ED25519.
    done.
  - intros k s Hs. by split; apply Hparse.
  - intros k k' s Hk Hk'. apply Hparse in Hk, Hk'. congruence.
Qed.

(** X2. The parsers return exactly for a bare encoded key, or an
    encoded key behind a tag that spells ed25519: a public key when the
    encoded part decodes, to the key of type ED25519 with these bytes;
    a key pair when the constructor accepts the encoded part, which it
    then returns. *)
Theorem fromString_returns_iff s :
  (∀ k, PublicKey_fromString s = Ok k ↔
     keyType k = ED25519
     ∧ ∃ e, base_decode e = Ok (data k) ∧ occurrences ":" e = 0
            ∧ (s = e ∨ ∃ t, t ∈ ed25519_spellings ∧ s = t +:+ ":" +:+ e))
  ∧ (∀ kp, KeyPair_fromString s = Ok kp ↔
     ∃ e, KeyPairEd25519_new e = Ok kp ∧ occurrences ":" e = 0
          ∧ (s = e ∨ ∃ t, t ∈ ed25519_spellings ∧ s = t +:+ ":" +:+ e)).
Proof.
  assert (∀ d k, (base_decode d ≫= λ b, Ok (mkPublicKey ED25519 b)) = Ok k
                 ↔ keyType k = ED25519 ∧ base_decode d = Ok (data k)) as Hdata.
  { intros d [t b]. destruct (base_decode d) as [b'|]; cbn.
    - split; [by intros [= <- ->]|by intros [-> [= ->]]].
    - split; [done|by intros [_ ?]]. }
  split; intros k; split.
  - destruct (colons_cases s) as [Hs|[(t & e & -> & Ht & He)|Hs]].
    + rewrite PublicKey_fromString_bare by done. intros [Hk Hd]%Hdata.
      split; [done|]. exists s. auto.
    + rewrite PublicKey_fromString_tagged by done.
      destruct (decide (t ∈ ed25519_spellings)) as [Hin|Hout].
      * rewrite str_to_key_type_known, bind_Ok by done.
        intros [Hk Hd]%Hdata. split; [done|]. exists e. eauto 6.
      * by rewrite str_to_key_type_unknown.
    + by rewrite PublicKey_fromString_colons.
  - intros (Hk & e & Hd & He & [->|(t & Ht & ->)]).
    + rewrite PublicKey_fromString_bare by done. by apply Hdata.
    + destruct (tagged_as_bare e t He Ht) as [-> _].
      rewrite PublicKey_fromString_bare by done. by apply Hdata.
  - destruct (colons_cases s) as [Hs|[(t & e & -> & Ht & He)|Hs]].
    + rewrite KeyPair_fromString_bare by done. intros Hk. exists s. auto.
    + rewrite KeyPair_fromString_tagged by done.
      destruct (decide (t ∈ ed25519_spellings)) as [Hin|Hout].
      * rewrite toUpperCase_known by done. intros Hk. exists e. eauto 6.
      * by rewrite toUpperCase_unknown.
    + by rewrite KeyPair_fromString_colons.
  - intros (e & Hd & He & [->|(t & Ht & ->)]).
    + by rewrite KeyPair_fromString_bare.
    + destruct (tagged_as_bare e t He Ht) as [_ ->].
      by rewrite KeyPair_fromString_bare.
Qed.

(** X3. The parsers throw for three reasons and no other: two or more
    colons, with the format error; a tag that does not spell ed25519,
    with the unknown key type (resp. unknown curve) error that quotes
    the tag as written; or an error of the decoding (resp. of the
    constructor) on the encoded part, which comes out as it is. The
    constructor in turn throws what the codec or
    [nacl.sign.keyPair.fromSecretKey] throws. *)
Theorem fromString_throws_iff s message :
  (PublicKey_fromString s = Throw message ↔
     (2 ≤ occurrences ":" s ∧ message = invalid_format)
     ∨ (∃ t e, s = t +:+ ":" +:+ e
               ∧ occurrences ":" t = 0 ∧ occurrences ":" e = 0
               ∧ (t ∉ ed25519_spellings)
               ∧ message = "Unknown key type " +:+ t)
     ∨ (∃ e, base_decode e = Throw message ∧ occurrences ":" e = 0
             ∧ (s = e ∨ ∃ t, t ∈ ed25519_spellings ∧ s = t +:+ ":" +:+ e)))
  ∧ (KeyPair_fromString s = Throw message ↔
     (2 ≤ occurrences ":" s ∧ message = invalid_format)
     ∨ (∃ t e, s = t +:+ ":" +:+ e
               ∧ occurrences ":" t = 0 ∧ occurrences ":" e = 0
               ∧ (t ∉ ed25519_spellings)
               ∧ message = "Unknown curve: " +:+ t)
     ∨ (∃ e, KeyPairEd25519_new e = Throw message ∧ occurrences ":" e = 0
             ∧ (s = e ∨ ∃ t, t ∈ ed25519_spellings ∧ s = t +:+ ":" +:+ e)))
  ∧ (KeyPairEd25519_new s = Throw message ↔
     base_decode s = Throw message
     ∨ ∃ sk, base_decode s = Ok sk
             ∧ nacl_sign_keyPair_fromSecretKey sk = Throw message).
Proof.
  assert (∀ d, (base_decode d ≫= λ b, Ok (mkPublicKey ED25519 b))
               = Throw message ↔ base_decode d = Throw message) as Hdata.
  { intros d. destruct (base_decode d); cbn; [|by split; intros [= ->]].
    split; intros Hno; discriminate Hno. }
  split; [|split]; split.
  - destruct (colons_cases s) as [Hs|[(t & e & -> & Ht & He)|Hs]].
    + rewrite PublicKey_fromString_bare by done. intros Hk%Hdata.
      right; right. exists s. auto.
    + rewrite PublicKey_fromString_tagged by done.
      destruct (decide (t ∈ ed25519_spellings)) as [Hin|Hout].
      * rewrite str_to_key_type_known, bind_Ok by done. intros Hk%Hdata.
        right; right. exists e. eauto 6.
      * rewrite str_to_key_type_unknown by done. intros [= <-].
        right; left. by exists t, e.
    + rewrite PublicKey_fromString_colons by done. intros [= <-]. by left.
  - intros [[Hs ->]|[(t & e & -> & Ht & He & Hout & ->)
                    |(e & Hd & He & [->|(t & Ht & ->)])]].
    + by apply PublicKey_fromString_colons.
    + rewrite PublicKey_fromString_tagged by done.
      by rewrite str_to_key_type_unknown.
    + rewrite PublicKey_fromString_bare by done. by apply Hdata.
    + destruct (tagged_as_bare e t He Ht) as [-> _].
      rewrite PublicKey_fromString_bare by done. by apply Hdata.
  - destruct (colons_cases s) as [Hs|[(t & e & -> & Ht & He)|Hs]].
    + rewrite KeyPair_fromString_bare by done. intros Hk.
      right; right. exists s. auto.
    + rewrite KeyPair_fromString_tagged by done.
      destruct (decide (t ∈ ed25519_spellings)) as [Hin|Hout].
      * rewrite toUpperCase_known by done. intros Hk.
        right; right. exists e. eauto 6.
      * rewrite toUpperCase_unknown by done. intros [= <-].
        right; left. by exists t, e.
    + rewrite KeyPair_fromString_colons by done. intros [= <-]. by left.
  - intros [[Hs ->]|[(t & e & -> & Ht & He & Hout & ->)
                    |(e & Hd & He & [->|(t & Ht & ->)])]].
    + by apply KeyPair_fromString_colons.
    + rewrite KeyPair_fromString_tagged by done.
      by rewrite toUpperCase_unknown.
    + by rewrite KeyPair_fromString_bare.
    + destruct (tagged_as_bare e t He Ht) as [_ ->].
      by rewrite KeyPair_fromString_bare.
  - unfold KeyPairEd25519_new. destruct (base_decode s) as [sk|e]; cbn.
    + destruct (nacl_sign_keyPair_fromSecretKey sk) as [kp|e] eqn:Hsk; cbn.
      * done.
      * intros [= <-]. right. by exists sk.
    + intros [= <-]. by left.
  - unfold KeyPairEd25519_new. intros [->|(sk & -> & Hsk)]; [done|].
    by rewrite bind_Ok, Hsk.
Qed.

(** X4. The two tables of key types agree: [key_type_to_str] returns
    for the number of ED25519 and throws for every other number; the
    tag it returns is read back by [str_to_key_type] as the same key
    type; a key type that [str_to_key_type] has read from a string is
    one that [key_type_to_str] prints, as that string in lower case;
    and the strings read are the spellings of ed25519. *)
Theorem key_type_tag_roundtrip :
  (∀ t, (t = ED25519 → key_type_to_str t = Ok "ed25519")
        ∧ (t ≠ ED25519 → throws (key_type_to_str t)))
  ∧ (∀ t tag, key_type_to_str t = Ok tag → str_to_key_type tag = Ok t)
  ∧ (∀ s t, str_to_key_type s = Ok t →
       key_type_to_str t = Ok (toLowerCase s))
  ∧ (∀ s, returns (str_to_key_type s) ↔ s ∈ ed25519_spellings).
Proof.
  split; [|split; [|split]].
  - intros t. unfold key_type_to_str. split; intros Ht.
    + by rewrite decide_True.
    + rewrite decide_False by done. by eexists.
  - intros t tag. unfold key_type_to_str.
    destruct (decide (t = ED25519)) as [->|]; [|done]. by intros [= <-].
  - intros s t. unfold str_to_key_type.
    destruct (String.eqb_spec (toLowerCase s) "ed25519") as [->|]; [|done].
    by intros [= <-].
  - intros s. split.
    + intros [t Ht]. destruct (decide (s ∈ ed25519_spellings)); [done|].
      by rewrite str_to_key_type_unknown in Ht.
    + intros Hs. exists ED25519. by apply str_to_key_type_known.
Qed.

(** X5. [KeyPair.fromRandom] takes the curve in any spelling of
    ed25519 and then is [KeyPairEd25519.fromRandom]; for any other
    curve it throws and leaves the random source as it was. *)
Theorem KeyPair_fromRandom_dispatch curve g :
  (curve ∈ ed25519_spellings →
     KeyPair_fromRandom curve g = KeyPairEd25519_fromRandom g)
  ∧ (curve ∉ ed25519_spellings →
     KeyPair_fromRandom curve g = (Throw ("Unknown curve " +:+ curve), g)).
Proof.
  unfold KeyPair_fromRandom. split; intros Hc.
  - by rewrite toUpperCase_known.
  - by rewrite toUpperCase_unknown.
Qed.

End MoreParsing.

(** ** More on key pairs *)

Section MoreKeys.
Context `{Externals}.

Lemma KeyPairEd25519_new_sizes (Hsizes : sign_sizes) s kp :
  KeyPairEd25519_new s = Ok kp →
  (∃ sk, base_decode s = Ok sk ∧ length sk = 64)
  ∧ secretKey kp = s ∧ length (data (publicKey kp)) = 32.
Proof.
  unfold KeyPairEd25519_new.
  destruct (base_decode s) as [sk|e]; cbn [mbind result_bind]; [|done].
  destruct (decide (length sk = 64)) as [Hsk|Hsk].
  - destruct (fromSecretKey_returns Hsizes sk Hsk) as (pair & -> & Hpk).
    cbn. intros [= <-]. split; [by exists sk|done].
  - by destruct (fromSecretKey_throws Hsizes sk Hsk) as [e ->].
Qed.

(** X6. With the sizes of [nacl.sign], the constructor returns exactly
    for the strings that decode to 64 bytes; the key pair then keeps the
    string as its secret key and has a public key of 32 bytes. *)
Theorem KeyPairEd25519_new_accepts (Hsizes : sign_sizes) s :
  (returns (KeyPairEd25519_new s)
   ↔ ∃ sk, base_decode s = Ok sk ∧ length sk = 64)
  ∧ (∀ kp, KeyPairEd25519_new s = Ok kp →
     secretKey kp = s ∧ length (data (publicKey kp)) = 32).
Proof.
  split; [split|].
  - intros [kp Hkp]. by apply (KeyPairEd25519_new_sizes Hsizes s kp).
  - intros (sk & Hsk & Hlen). unfold KeyPairEd25519_new. rewrite Hsk, bind_Ok.
    destruct (fromSecretKey_returns Hsizes sk Hlen) as (pair & -> & _).
    by eexists.
  - intros kp Hkp. by apply (KeyPairEd25519_new_sizes Hsizes s kp).
Qed.

(** X7. With the sizes of [nacl.sign], a key pair that the constructor
    has returned signs every message, with a signature of 64 bytes that
    carries the key pair's public key; its [verify] returns a boolean
    for every signature of 64 bytes and throws for every other
    signature. *)
Theorem sign_verify_sizes (Hsizes : sign_sizes) s kp :
  KeyPairEd25519_new s = Ok kp →
  (∀ m, ∃ sig, sign kp m = Ok sig ∧ length (signature sig) = 64
               ∧ signer sig = getPublicKey kp)
  ∧ (∀ m sig, length sig = 64 → returns (verify kp m sig))
  ∧ (∀ m sig, length sig ≠ 64 → throws (verify kp m sig)).
Proof.
  intros Hkp.
  destruct (KeyPairEd25519_new_sizes Hsizes s kp Hkp)
    as ((sk & Hsk & Hlen) & Hs & Hpk).
  rewrite <- Hs in Hsk.
  split; [|split].
  - intros m. destruct (detached_returns Hsizes m sk Hlen) as (sig & Hsig & ?).
    exists (mkSignature sig (publicKey kp)).
    unfold sign. by rewrite Hsk, bind_Ok, Hsig.
  - intros m sig Hsig. unfold verify.
    rewrite PublicKey_verify_ED25519
      by by apply (KeyPairEd25519_new_keyType s).
    by apply (verify_returns Hsizes).
  - intros m sig Hsig. unfold verify.
    rewrite PublicKey_verify_ED25519
      by by apply (KeyPairEd25519_new_keyType s).
    by apply (verify_throws Hsizes).
Qed.

(** X8. A signature made by a well-formed key pair verifies under the
    public key parsed from the printed form of the key pair's public
    key. *)
Theorem verify_by_printed_key
    (Hround : codec_roundtrip) (Halphabet : codec_alphabet)
    (Hsign : sign_contract) kp m :
  well_formed kp →
  ∃ sig printed k,
    sign kp m = Ok sig
    ∧ PublicKey_toString (getPublicKey kp) = Ok printed
    ∧ PublicKey_from (inl printed) = Ok k
    ∧ PublicKey_verify k m (signature sig) = Ok true.
Proof.
  intros Hkp.
  destruct (well_formed_publicKey Hsign _ Hkp) as (g & Hsk & Hpk).
  destruct (verify_detached Hsign g m) as (sig & Hsig & Hver).
  assert (keyType (publicKey kp) = ED25519) as Htype
    by by apply (KeyPairEd25519_new_keyType (secretKey kp)), Hkp.
  exists (mkSignature sig (publicKey kp)),
    ("ed25519:" +:+ base_encode (data (publicKey kp))), (publicKey kp).
  split; [|split; [|split]].
  - unfold sign. by rewrite Hsk, bind_Ok, Hsig.
  - by apply PublicKey_toString_ED25519.
  - cbn. apply (PublicKey_parse_printed Hround Halphabet).
    by apply PublicKey_toString_ED25519.
  - cbn [signature]. by rewrite PublicKey_verify_ED25519, Hpk.
Qed.

(** X9. With a codec that decodes what it encodes and has no colon in
    its alphabet, [fromRandom] returns: its key pair has the public key
    that [nacl.sign.keyPair()] has generated and the encoding of the
    generated secret key, it is parsed back from its printed form, and
    the random source is left where [nacl.sign.keyPair()] left it. *)
Theorem fromRandom_returns
    (Hround : codec_roundtrip) (Halphabet : codec_alphabet)
    (Hrecovered : keyPair_recovered) g :
  ∃ kp,
    KeyPairEd25519_fromRandom g = (Ok kp, (nacl_sign_keyPair g).2)
    ∧ data (publicKey kp) = nacl.publicKey (nacl_sign_keyPair g).1
    ∧ secretKey kp = base_encode (nacl.secretKey (nacl_sign_keyPair g).1)
    ∧ KeyPair_fromString (toString kp) = Ok kp.
Proof.
  unfold KeyPairEd25519_fromRandom.
  pose proof (Hrecovered g) as Hfrom. cbv zeta in Hfrom.
  destruct (nacl_sign_keyPair g) as [pair g']. cbn [fst snd] in *.
  assert (KeyPairEd25519_new (base_encode (nacl.secretKey pair))
          = Ok (mkKeyPairEd25519 (mkPublicKey ED25519 (nacl.publicKey pair))
                  (base_encode (nacl.secretKey pair)))) as Hnew.
  { unfold KeyPairEd25519_new. by rewrite Hround, bind_Ok, Hfrom. }
  eexists. split; [by rewrite Hnew|]. cbn [publicKey data secretKey].
  split; [done|]. split; [done|].
  unfold toString. cbn [secretKey].
  change ("ed25519:" +:+ ?x) with ("ed25519" +:+ ":" +:+ x).
  rewrite KeyPair_fromString_tagged;
    [exact Hnew|reflexivity|by apply (Halphabet _ _ (Hround _))].
Qed.

End MoreKeys.

(** ** More on envelopes *)

Section MoreEnvelopes.
Context `{Externals}.

(** X10. With the sizes of [nacl.box], [encryptMessage] throws when
    [convertPublicKey] refuses the receiver's key and otherwise returns
    an envelope 72 bytes longer than the message; either way it has
    drawn the ephemeral key and the nonce from the random source, and
    nothing of it depends on the key pair it is called on. *)
Theorem encryptMessage_returns
    (Hsizes : nacl_sizes) (Hbox : box_sizes) this m k g :
  (convertPublicKey (data k) = None → throws (encryptMessage this m k g).1)
  ∧ (is_Some (convertPublicKey (data k)) →
     ∃ out, (encryptMessage this m k g).1 = Ok out
            ∧ length out = length m + 72)
  ∧ (encryptMessage this m k g).2
    = (nacl_randomBytes 24 (nacl_box_keyPair g).2).2
  ∧ ∀ other, encryptMessage other m k g = encryptMessage this m k g.
Proof.
  split; [|split; [|split]].
  - intros Hnull. rewrite encryptMessage_unfold, Hnull.
    destruct (box_null_throws Hbox m
                (nacl_randomBytes 24 (nacl_box_keyPair g).2).1
                (nacl.secretKey (nacl_box_keyPair g).1)) as [e ->].
    by exists e.
  - intros [cpk Hcpk]. rewrite encryptMessage_unfold, Hcpk.
    pose proof (box_keyPair_publicKey_length Hsizes g) as Hepk.
    pose proof (randomBytes_length Hsizes 24 (nacl_box_keyPair g).2) as Hn.
    destruct (box_returns Hbox m _ cpk _
                (convertPublicKey_length Hbox _ _ Hcpk)
                (box_keyPair_secretKey_length Hbox g) Hn) as (c & -> & Hc).
    rewrite bind_Ok. eexists. split; [done|].
    rewrite !length_app. lia.
  - apply encryptMessage_rng.
  - done.
Qed.

(** X11. With the sizes of [nacl.box], a key pair that the constructor
    has returned answers [null] to every input of 56 to 71 bytes, and
    the plaintext it returns for an input is 72 bytes shorter than the
    input. *)
Theorem decryptMessage_lengths
    (Hopen : box_open_sizes) (Hbox : box_sizes) s kp (full : bytes) :
  KeyPairEd25519_new s = Ok kp →
  (56 ≤ length full < 72 → decryptMessage kp full = Ok None)
  ∧ (∀ m, decryptMessage kp full = Ok (Some m) →
     length full = length m + 72).
Proof.
  intros Hkp.
  destruct (KeyPairEd25519_new_decodes _ _ Hkp) as [sk Hsk].
  rewrite <- (KeyPairEd25519_new_secretKey _ _ Hkp) in Hsk.
  unfold decryptMessage. rewrite Hsk, bind_Ok. split.
  - intros Hlen. apply (box_open_short Hbox).
    + unfold slice_from. rewrite length_drop. lia.
    + unfold slice. rewrite length_take, length_drop. lia.
    + apply (convertSecretKey_length Hopen).
    + unfold slice. rewrite length_take, length_drop. lia.
  - intros m Hm.
    destruct (decide (56 ≤ length full)) as [Hlen|Hlen].
    + apply (box_open_length Hbox) in Hm.
      unfold slice_from in Hm. rewrite length_drop in Hm. lia.
    + destruct (box_open_throws Hopen (slice_from 56 full) (slice 32 56 full)
                  (slice 0 32 full) (convertSecretKey sk)) as [e He].
      * unfold slice. rewrite !length_take, !length_drop. lia.
      * congruence.
Qed.

End MoreEnvelopes.

(** ** The further properties at the test data *)

Section MoreVectors.
Import vectors.
#[local] Existing Instance tweetnacl.externals.

Lemma decryptMessage_failure_witness :
  decryptMessage pair_B envelope_A = Ok None
  ∧ returns (decryptMessage pair_B envelope_A)
  ∧ throws (decryptMessage pair_B (take 40 envelope_A)).
Proof.
  destruct (decryptMessage_failure tweetnacl_facts.tweetnacl_sizes
              tweetnacl_facts.tweetnacl_open_sizes
              tweetnacl_lengths.tweetnacl_open_sound
              secret_B pair_B ltac:(vm_compute; reflexivity))
    as (sk & Hsk & Hlong & Henvelope & Hshort).
  split; [vm_compute; reflexivity|]. split.
  - apply (Henvelope pair_A plaintext (getPublicKey pair_A) source).
    vm_compute. reflexivity.
  - apply Hshort. vm_compute. lia.
Defined.

Lemma PublicKey_print_parse_witness :
  ∃ s, PublicKey_toString (getPublicKey pair_A) = Ok s
       ∧ PublicKey_fromString s = Ok (getPublicKey pair_A)
       ∧ PublicKey_from (inl s) = PublicKey_from (inr (getPublicKey pair_A)).
Proof.
  apply (proj1 (PublicKey_print_parse (H := tweetnacl.externals)
                  bs58_facts.decode_encode bs58_facts.decode_colon)).
  vm_compute. reflexivity.
Defined.

Lemma KeyPairEd25519_new_accepts_witness :
  secretKey pair_A = secret_A ∧ length (data (publicKey pair_A)) = 32.
Proof.
  apply (proj2 (KeyPairEd25519_new_accepts
                  tweetnacl_lengths.tweetnacl_sign_sizes secret_A)).
  vm_compute. reflexivity.
Defined.

Lemma sign_verify_sizes_witness :
  ∃ sig, sign pair_A message = Ok sig ∧ length (signature sig) = 64
         ∧ signer sig = getPublicKey pair_A.
Proof.
  apply (proj1 (sign_verify_sizes tweetnacl_lengths.tweetnacl_sign_sizes
                  secret_A pair_A ltac:(vm_compute; reflexivity))).
Defined.

Lemma verify_by_printed_key_witness :
  ∃ sig printed k,
    sign (H := toy.externals) toy_pair message = Ok sig
    ∧ PublicKey_toString (H := toy.externals) (getPublicKey toy_pair)
      = Ok printed
    ∧ PublicKey_from (H := toy.externals) (inl printed) = Ok k
    ∧ PublicKey_verify (H := toy.externals) k message (signature sig)
      = Ok true.
Proof.
  apply (verify_by_printed_key (H := toy.externals)
           bs58_facts.decode_encode bs58_facts.decode_colon
           toy_facts.toy_signatures).
  split; [vm_compute; reflexivity|].
  exists (nacl.secretKey (toy.sign_keyPair source).1).
  split; [vm_compute; reflexivity|].
  exists source. reflexivity.
Defined.

Lemma fromRandom_returns_witness :
  ∃ kp,
    KeyPairEd25519_fromRandom source = (Ok kp, (nacl_sign_keyPair source).2)
    ∧ data (publicKey kp) = nacl.publicKey (nacl_sign_keyPair source).1
    ∧ secretKey kp = base_encode (nacl.secretKey (nacl_sign_keyPair source).1)
    ∧ KeyPair_fromString (toString kp) = Ok kp.
Proof.
  apply (fromRandom_returns (H := tweetnacl.externals)
           bs58_facts.decode_encode bs58_facts.decode_colon
           tweetnacl_lengths.tweetnacl_recovered).
Defined.

Lemma encryptMessage_returns_witness :
  ∃ out,
    (encryptMessage pair_A plaintext (getPublicKey pair_A) source).1 = Ok out
    ∧ length out = length plaintext + 72.
Proof.
  apply (proj1 (proj2 (encryptMessage_returns
                         tweetnacl_facts.tweetnacl_sizes
                         tweetnacl_lengths.tweetnacl_box_sizes
                         pair_A plaintext (getPublicKey pair_A) source))).
  vm_compute. eexists. reflexivity.
Defined.

Lemma decryptMessage_lengths_witness :
  decryptMessage pair_A (replicate 60 "000"%byte) = Ok None.
Proof.
  apply (proj1 (decryptMessage_lengths
                  tweetnacl_facts.tweetnacl_open_sizes
                  tweetnacl_lengths.tweetnacl_box_sizes
                  secret_A pair_A (replicate 60 "000"%byte)
                  ltac:(vm_compute; reflexivity))).
  vm_compute. lia.
Defined.

End MoreVectors.
